(** * Headlights catalogue and archive-job queue: the [db] package

    A shallow embedding of [src/db/db.go]: the find-or-create operations of
    the catalogue (categories, folders, real folders), the batched file
    lookup [GetFilesByIDs] and the archive-job queue ([QueueArchiveJob],
    [ProcessArchiveJob]), with the properties the specification states
    about them.

    Conventions.
    - Go [int] and [uint64] identifiers and depths are [Z]; no arithmetic
      in the package comes near the 64-bit bounds, so no wrap-around is
      written out.
    - A [time.Time] is the number of nanoseconds elapsed since Go's zero
      [Time] (January 1, year 1, UTC); the zero value is [0] and
      [time.Hour] is [3600 * 10^9].  SQL comparisons of stored instants
      are taken to be chronological.
    - A parent folder, which callers leave [nil] for the top level, is an
      [option]; dereferencing [nil] is the [Panic] outcome.  The category
      is always given.
    - The database is the list of rows of each table, in rowid order,
      together with the sticky error of the magicsql operation: once it is
      set, queries find nothing and saves write nothing.
    - Opening the database and the inventory table are left out.
    - The zip-job queue of the earlier revision of the package and the
      breadcrumbs of the web front end follow the package, each under its
      own heading. *)

From Stdlib Require Import ZArith List String Ascii Bool Lia Permutation Sorted.
Import ListNotations.
Open Scope Z_scope.

(** ** Go values *)

Definition Time := Z.
Definition zeroTime : Time := 0.
Definition Hour : Z := 3600 * 1000000000.
Definition Time_Add (t : Time) (d : Z) : Time := t + d.

(** [fmt.Errorf] with a constant message. *)
Inductive error := Errorf (msg : string).

(** Outcome of a Go call that may dereference a nil pointer. *)
Inductive go (A : Type) :=
| Return (a : A)
| Panic (msg : string).
Arguments Return {A} a.
Arguments Panic {A} msg.

Definition nil_dereference : string := "invalid memory address or nil pointer dereference"%string.

(** ** Strings: the parts of [strings], [os] and [path/filepath] the package calls *)

Definition PathSeparator : ascii := "/"%char.

(** [strings.Count(s, string(sep))] for a one-byte separator. *)
Fixpoint strings_Count (s : string) (sep : ascii) : nat :=
  match s with
  | EmptyString => O
  | String c rest =>
      if Ascii.eqb c sep then S (strings_Count rest sep) else strings_Count rest sep
  end.

(** [strings.Join(elems, sep)]. *)
Fixpoint strings_Join (elems : list string) (sep : string) : string :=
  match elems with
  | [] => EmptyString
  | [e] => e
  | e :: rest => String.append e (String.append sep (strings_Join rest sep))
  end.

(** [filepath.Split(path)] on a Unix path: the path is cut right after its
    last separator; without a separator the directory is empty. *)
Fixpoint filepath_Split (path : string) : string * string :=
  match path with
  | EmptyString => (EmptyString, EmptyString)
  | String c rest =>
      let (dir, file) := filepath_Split rest in
      match dir with
      | String _ _ => (String c dir, file)
      | EmptyString =>
          if Ascii.eqb c PathSeparator
          then (String c EmptyString, file)
          else (EmptyString, String c file)
      end
  end.

(** [strings.ToLower] on ASCII text: the letters A to Z are mapped to a to z,
    every other byte is kept. *)
Definition lower_byte (c : ascii) : ascii :=
  let n := N_of_ascii c in
  if ((65 <=? n) && (n <=? 90))%N then ascii_of_N (n + 32) else c.

Fixpoint strings_ToLower (s : string) : string :=
  match s with
  | EmptyString => EmptyString
  | String c rest => String (lower_byte c) (strings_ToLower rest)
  end.

(** The ASCII record separator, written ["\x1E"] in the source. *)
Definition RS : string := String (ascii_of_nat 30) EmptyString.

(** ** Insertion sort, as [sort.Slice] runs it

    [sort.Slice] sorts short slices by insertion: element [i] moves left
    while it is [less] than its left neighbour.  [insert_left] does one such
    move over the already sorted prefix, held in reverse.  On a [less] that
    leaves no ties every correct sort returns this same list; with ties this
    is the order [sort.Slice] produces on slices of fewer than twelve
    elements, and the order of SQL [ORDER BY] over an index (ties by rowid). *)
Section InsertionSort.
Context {A : Type}.
Variable less : A -> A -> bool.

Fixpoint insert_left (x : A) (rprefix : list A) : list A :=
  match rprefix with
  | [] => [x]
  | y :: r => if less x y then y :: insert_left x r else x :: y :: r
  end.

Definition insertionSort (data : list A) : list A :=
  rev (fold_left (fun rprefix x => insert_left x rprefix) data []).

(** [a] may stand before [b]: [b] is not [less] than [a]. *)
Definition not_after (a b : A) : Prop := less b a = false.

(** The order in which the reversed prefix is kept. *)
Definition descending : list A -> Prop := StronglySorted (fun a b => less a b = false).
End InsertionSort.

Definition sort_Slice {A : Type} (data : list A) (less : A -> A -> bool) : list A :=
  insertionSort less data.

(** ** The models

    The pointer fields are the ones tagged [sql:"-"]: they are not stored. *)

(** Modelled from the spec: the struct [Category] is declared in a file of
    the package that is not at hand; the fields are those of the spec's
    data model, which are the ones [db.go] reads and writes. *)
Record Category := mkCategory {
  Category_ID : Z;
  Category_Name : string
}.

#[local] Set Warnings "-register-all".
(** Modelled from the spec: the struct [Folder], declared elsewhere in the
    package; [Folder_FolderID] is the parent key, a Go [int] that [db.go]
    compares with [parentFolderID]. *)
Inductive Folder := mkFolder {
  Folder_ID : Z;
  Folder_Category : option Category;
  Folder_CategoryID : Z;
  Folder_Folder : option Folder;
  Folder_FolderID : Z;
  Folder_Depth : Z;
  Folder_PublicPath : string;
  Folder_Name : string
}.

(** Modelled from the spec: the struct [RealFolder], declared elsewhere in
    the package. *)
Record RealFolder := mkRealFolder {
  RealFolder_ID : Z;
  RealFolder_Folder : option Folder;
  RealFolder_FolderID : Z;
  RealFolder_FullPath : string
}.

(** Modelled from the spec: the struct [File], declared elsewhere in the
    package. *)
Record File := mkFile {
  File_ID : Z;
  File_Category : option Category;
  File_CategoryID : Z;
  File_FolderID : Z;
  File_Depth : Z;
  File_FullPath : string;
  File_PublicPath : string
}.

(** Modelled from the spec: the struct [ArchiveJob], declared elsewhere in
    the package; the columns are those of the [archive_jobs] migration. *)
Record ArchiveJob := mkArchiveJob {
  ArchiveJob_ID : Z;
  ArchiveJob_CreatedAt : Time;
  ArchiveJob_NextAttemptAt : Time;
  ArchiveJob_NotificationEmails : string;
  ArchiveJob_Files : string;
  ArchiveJob_Processed : bool
}.

(** ** Storage: magicsql over SQLite

    A table is the list of its rows in rowid order.  [Row] is what magicsql
    reads off a model by reflection: its primary key, and the columns that
    are stored (a field tagged [sql:"-"] is not, and comes back nil). *)

Class Row (A : Type) := {
  pk : A -> Z;
  with_pk : Z -> A -> A;
  columns : A -> A
}.

#[export] Instance Category_Row : Row Category := {|
  pk := Category_ID;
  with_pk id c := mkCategory id (Category_Name c);
  columns c := c
|}.

#[export] Instance Folder_Row : Row Folder := {|
  pk := Folder_ID;
  with_pk id f :=
    mkFolder id (Folder_Category f) (Folder_CategoryID f) (Folder_Folder f)
      (Folder_FolderID f) (Folder_Depth f) (Folder_PublicPath f) (Folder_Name f);
  columns f :=
    mkFolder (Folder_ID f) None (Folder_CategoryID f) None
      (Folder_FolderID f) (Folder_Depth f) (Folder_PublicPath f) (Folder_Name f)
|}.

#[export] Instance RealFolder_Row : Row RealFolder := {|
  pk := RealFolder_ID;
  with_pk id r := mkRealFolder id (RealFolder_Folder r) (RealFolder_FolderID r) (RealFolder_FullPath r);
  columns r := mkRealFolder (RealFolder_ID r) None (RealFolder_FolderID r) (RealFolder_FullPath r)
|}.

#[export] Instance File_Row : Row File := {|
  pk := File_ID;
  with_pk id f :=
    mkFile id (File_Category f) (File_CategoryID f) (File_FolderID f)
      (File_Depth f) (File_FullPath f) (File_PublicPath f);
  columns f :=
    mkFile (File_ID f) None (File_CategoryID f) (File_FolderID f)
      (File_Depth f) (File_FullPath f) (File_PublicPath f)
|}.

#[export] Instance ArchiveJob_Row : Row ArchiveJob := {|
  pk := ArchiveJob_ID;
  with_pk id j :=
    mkArchiveJob id (ArchiveJob_CreatedAt j) (ArchiveJob_NextAttemptAt j)
      (ArchiveJob_NotificationEmails j) (ArchiveJob_Files j) (ArchiveJob_Processed j);
  columns j := j
|}.

Section Magicsql.
Context {A : Type} `{Row A}.

(** The rowid SQLite gives to an inserted row: one more than the largest
    in the table, [1] in an empty table. *)
Definition next_pk (rows : list A) : Z :=
  1 + fold_right Z.max 0 (map pk rows).

(** [Select().Where(...)]. *)
Definition Where (cond : A -> bool) (rows : list A) : list A := filter cond rows.

(** [Order(...)]: ascending, rows that tie stay in rowid order. *)
Definition Order (less : A -> A -> bool) (rows : list A) : list A :=
  insertionSort less rows.

(** [Limit(n)]. *)
Definition Limit (n : nat) (rows : list A) : list A := firstn n rows.

(** [First(obj)]: the first row of the selection, if there is one.  An
    operation that already carries an error runs nothing. *)
Definition First (err : option error) (rows : list A) : option A :=
  match err with
  | Some _ => None
  | None => hd_error rows
  end.

(** [AllObjects(&objs)]. *)
Definition AllObjects (err : option error) (rows : list A) : list A :=
  match err with
  | Some _ => []
  | None => rows
  end.

(** [Save(obj)]: an object whose primary key is zero is inserted and
    receives its rowid; any other object updates the row of its key. *)
Definition Save (err : option error) (rows : list A) (obj : A) : list A * A :=
  match err with
  | Some _ => (rows, obj)
  | None =>
      if pk obj =? 0 then
        let obj' := with_pk (next_pk rows) obj in
        (rows ++ [columns obj'], obj')
      else
        (map (fun r => if pk r =? pk obj then columns obj else r) rows, obj)
  end.
End Magicsql.

(** [Operation]: the operation's sticky error and the tables behind its
    [OperationTable]s. *)
Record Operation := mkOperation {
  Err : option error;
  Files : list File;
  Folders : list Folder;
  RealFolders : list RealFolder;
  Categories : list Category;
  ArchiveJobs : list ArchiveJob
}.

Definition with_Categories (rows : list Category) (op : Operation) : Operation :=
  mkOperation (Err op) (Files op) (Folders op) (RealFolders op) rows (ArchiveJobs op).
Definition with_Folders (rows : list Folder) (op : Operation) : Operation :=
  mkOperation (Err op) (Files op) rows (RealFolders op) (Categories op) (ArchiveJobs op).
Definition with_RealFolders (rows : list RealFolder) (op : Operation) : Operation :=
  mkOperation (Err op) (Files op) (Folders op) rows (Categories op) (ArchiveJobs op).
Definition with_ArchiveJobs (rows : list ArchiveJob) (op : Operation) : Operation :=
  mkOperation (Err op) (Files op) (Folders op) (RealFolders op) (Categories op) rows.

(** ** Categories *)

Definition AllCategories (op : Operation) : list Category * option error :=
  let less a b :=
    String.ltb (strings_ToLower (Category_Name a)) (strings_ToLower (Category_Name b)) in
  (AllObjects (Err op) (Order less (Categories op)), Err op).

Definition FindCategoryByName (name : string) (op : Operation)
  : option Category * option error :=
  let ok := First (Err op) (Where (fun c => String.eqb (Category_Name c) name) (Categories op)) in
  (ok, Err op).

Definition FindOrCreateCategory (name : string) (op : Operation)
  : (option Category * option error) * Operation :=
  let (category, err) := FindCategoryByName name op in
  match category, err with
  | None, None =>
      let (rows, saved) := Save (Err op) (Categories op) (mkCategory 0 name) in
      let op' := with_Categories rows op in
      ((Some saved, Err op'), op')
  | _, _ => ((category, Err op), op)
  end.

(** ** Folders *)

Definition FindFolderByPath (c : Category) (path : string) (op : Operation)
  : option Folder * option error :=
  let ok :=
    First (Err op)
      (Where (fun r => (Folder_CategoryID r =? Category_ID c)
                       && String.eqb (Folder_PublicPath r) path) (Folders op)) in
  (ok, Err op).

Definition different_parent : error := Errorf "existing record with different parent found".
Definition different_folder : error := Errorf "existing record with different folder found".

Definition FindOrCreateFolder (c : Category) (f : option Folder) (path : string)
    (op : Operation) : (option Folder * option error) * Operation :=
  let parentFolderID := match f with Some p => Folder_ID p | None => 0 end in
  let (folder, err) := FindFolderByPath c path op in
  match err with
  | Some e => ((None, Some e), op)
  | None =>
      match folder with
      | Some folder =>
          if negb (Folder_FolderID folder =? parentFolderID) then
            ((None, Some different_parent), op)
          else
            ((Some (mkFolder (Folder_ID folder) (Some c) (Folder_CategoryID folder) f
                      (Folder_FolderID folder) (Folder_Depth folder)
                      (Folder_PublicPath folder) (Folder_Name folder)), None), op)
      | None =>
          let (_, filename) := filepath_Split path in
          let newFolder :=
            mkFolder 0 (Some c) (Category_ID c) f parentFolderID
              (Z.of_nat (strings_Count path PathSeparator)) path filename in
          let (rows, saved) := Save (Err op) (Folders op) newFolder in
          let op' := with_Folders rows op in
          ((Some saved, Err op'), op')
      end
  end.

(** ** Real folders *)

(** [f.ID] is read without a nil check. *)
Definition FindRealFolderByPath (f : option Folder) (path : string) (op : Operation)
  : go (option RealFolder * option error) :=
  match f with
  | None => Panic nil_dereference
  | Some f =>
      let ok :=
        First (Err op)
          (Where (fun r => (RealFolder_FolderID r =? Folder_ID f)
                           && String.eqb (RealFolder_FullPath r) path) (RealFolders op)) in
      Return (ok, Err op)
  end.

Definition FindOrCreateRealFolder (f : option Folder) (path : string) (op : Operation)
  : go ((option RealFolder * option error) * Operation) :=
  let fid := match f with Some p => Folder_ID p | None => 0 end in
  match FindRealFolderByPath f path op with
  | Panic msg => Panic msg
  | Return (folder, err) =>
      match err with
      | Some e => Return ((None, Some e), op)
      | None =>
          match folder with
          | Some folder =>
              if negb (RealFolder_FolderID folder =? fid) then
                Return ((None, Some different_folder), op)
              else
                Return ((Some (mkRealFolder (RealFolder_ID folder) f
                                 (RealFolder_FolderID folder)
                                 (RealFolder_FullPath folder)), None), op)
          | None =>
              let newFolder := mkRealFolder 0 f fid path in
              let (rows, saved) := Save (Err op) (RealFolders op) newFolder in
              let op' := with_RealFolders rows op in
              Return ((Some saved, Err op'), op')
          end
      end
  end.

(** ** Files *)


(** The [map[int]*Category] filled from the category list: a later entry
    overwrites an earlier one of the same id, a missing id reads as nil. *)
Definition categoryLookup (categoryList : list Category) : Z -> option Category :=
  fold_left
    (fun lookup c => fun id => if id =? Category_ID c then Some c else lookup id)
    categoryList (fun _ => None).

Definition File_with_Category (c : option Category) (f : File) : File :=
  mkFile (File_ID f) c (File_CategoryID f) (File_FolderID f)
    (File_Depth f) (File_FullPath f) (File_PublicPath f).

Definition Folder_with_Category (c : option Category) (f : Folder) : Folder :=
  mkFolder (Folder_ID f) c (Folder_CategoryID f) (Folder_Folder f)
    (Folder_FolderID f) (Folder_Depth f) (Folder_PublicPath f) (Folder_Name f).

Definition PopulateCategories (files : list File) (folders : list Folder) (op : Operation)
  : (list File * list Folder) * option error :=
  let (categoryList, err) := AllCategories op in
  match err with
  | Some e => ((files, folders), Some e)
  | None =>
      let lookup := categoryLookup categoryList in
      ((map (fun f => File_with_Category (lookup (File_CategoryID f)) f) files,
        map (fun f => Folder_with_Category (lookup (Folder_CategoryID f)) f) folders),
       None)
  end.

(** One [id IN (?, ?, ...)] query; its rows come in table order, whatever
    the order of [ids]. *)
Definition appendFiles (files : list File) (ids : list Z) (op : Operation) : list File :=
  let tempFiles :=
    AllObjects (Err op) (Where (fun r => existsb (Z.eqb (File_ID r)) ids) (Files op)) in
  files ++ tempFiles.

(** The comparison handed to [sort.Slice]. *)
Definition File_less (a b : File) : bool :=
  if negb (File_Depth a =? File_Depth b) then File_Depth a <? File_Depth b
  else String.ltb (strings_ToLower (File_PublicPath a)) (strings_ToLower (File_PublicPath b)).

Definition maxBatch : nat := 1000.

(** The loop [for len(ids) > 1000]; every turn drops 1000 ids, so
    [length ids] turns are more than it can take. *)
Fixpoint GetFilesByIDs_loop (fuel : nat) (files : list File) (ids : list Z) (op : Operation)
  : list File * list Z :=
  match fuel with
  | O => (files, ids)
  | S fuel' =>
      if (maxBatch <? List.length ids)%nat then
        GetFilesByIDs_loop fuel' (appendFiles files (firstn maxBatch ids) op)
          (skipn maxBatch ids) op
      else (files, ids)
  end.

(** The rows as fetched, before sorting. *)
Definition GetFilesByIDs_fetch (ids : list Z) (op : Operation) : list File :=
  let (files, ids') := GetFilesByIDs_loop (List.length ids) [] ids op in
  if (0 <? List.length ids')%nat then appendFiles files ids' op else files.

Definition GetFilesByIDs (ids : list Z) (op : Operation) : list File * option error :=
  let files := GetFilesByIDs_fetch ids op in
  let files := sort_Slice files File_less in
  let '((files, _), _) := PopulateCategories files [] op in
  (files, Err op).

(** ** The archive-job queue *)

(** [String()] of a [*mail.Address]: the rendering is net/mail's own and is
    left to the instance. *)
Class Stringer (A : Type) := { String_ : A -> string }.

Definition no_files : error := Errorf "no files to archive".
Definition no_addresses : error := Errorf "no notification addresses for archive job".

(** [now] is the value of the call to [time.Now()].  The literal sets
    neither [NextAttemptAt] nor [Processed]: they keep their zero values. *)
Definition QueueArchiveJob {Addr : Type} `{Stringer Addr} (now : Time)
    (addrs : list Addr) (files : list File) (op : Operation) : option error * Operation :=
  if (List.length files =? 0)%nat then (Some no_files, op)
  else if (List.length addrs =? 0)%nat then (Some no_addresses, op)
  else
    let filePaths := map File_FullPath files in
    let emails := map String_ addrs in
    let (rows, _) :=
      Save (Err op) (ArchiveJobs op)
        (mkArchiveJob 0 now zeroTime (strings_Join emails ",") (strings_Join filePaths RS) false) in
    let op' := with_ArchiveJobs rows op in
    (Err op', op').

Definition ArchiveJob_with_Processed (b : bool) (j : ArchiveJob) : ArchiveJob :=
  mkArchiveJob (ArchiveJob_ID j) (ArchiveJob_CreatedAt j) (ArchiveJob_NextAttemptAt j)
    (ArchiveJob_NotificationEmails j) (ArchiveJob_Files j) b.

Definition ArchiveJob_with_NextAttemptAt (t : Time) (j : ArchiveJob) : ArchiveJob :=
  mkArchiveJob (ArchiveJob_ID j) (ArchiveJob_CreatedAt j) t
    (ArchiveJob_NotificationEmails j) (ArchiveJob_Files j) (ArchiveJob_Processed j).

(** The [Where] of [ProcessArchiveJob]: [next_attempt_at < ? AND processed = ?]
    with the arguments [time.Now()] and [false]. *)
Definition due (now : Time) (j : ArchiveJob) : bool :=
  (ArchiveJob_NextAttemptAt j <? now) && Bool.eqb (ArchiveJob_Processed j) false.

Definition created_before (a b : ArchiveJob) : bool :=
  ArchiveJob_CreatedAt a <? ArchiveJob_CreatedAt b.

(** [now] is the clock at the query and [now'] the clock once the callback
    has returned.  The callback reads the job it is handed; the jobs it was
    called with are returned next to the error. *)
Definition ProcessArchiveJob (cb : ArchiveJob -> bool) (now now' : Time) (op : Operation)
  : (option error * list ArchiveJob) * Operation :=
  let sel := Where (due now) (ArchiveJobs op) in
  let ok := First (Err op) (Limit 1 (Order created_before sel)) in
  match Err op with
  | Some e => ((Some e, []), op)
  | None =>
      match ok with
      | None => ((None, []), op)
      | Some j =>
          let j' :=
            if cb j then ArchiveJob_with_Processed true j
            else ArchiveJob_with_NextAttemptAt (Time_Add now' Hour) j in
          let (rows, _) := Save (Err op) (ArchiveJobs op) j' in
          let op' := with_ArchiveJobs rows op in
          ((Err op', [j]), op')
      end
  end.

Definition GetRealFolders (f : Folder) (op : Operation) : list RealFolder * option error :=
  (AllObjects (Err op) (Where (fun r => RealFolder_FolderID r =? Folder_ID f) (RealFolders op)),
   Err op).

(** ** Selections *)

(** Modelled from the spec: [FileSelect], [FolderSelect] and the selection
    they build, with its [TreeMode], [Search], [Limit] and [AllObjects], are
    declared in a file of the package that is not at hand.  By the
    specification a selection lists the immediate children of the parent
    folder (the top level when there is none) or, in tree mode, the
    descendants in the subtree under it (the whole category when there is
    none); a search keeps the rows whose column holds the term as a
    substring; [AllObjects] returns the rows capped by the limit together
    with the total number of matching rows, whatever the limit.  The subtree
    under a folder is read off the public paths, and a row is a child of the
    folder whose id is its parent key. *)
Record Select (A : Type) := mkSelect {
  Select_err : option error;
  Select_children : list A;
  Select_descendants : list A;
  Select_tree : bool;
  Select_search : A -> bool;
  Select_limit : option N
}.
Arguments mkSelect {A}.
Arguments Select_err {A}.
Arguments Select_children {A}.
Arguments Select_descendants {A}.
Arguments Select_tree {A}.
Arguments Select_search {A}.
Arguments Select_limit {A}.

(** Modelled from the spec: [path] lies in the subtree under [folder], the
    scope of a descendant search; no folder is the whole category. *)
Definition under (folder : option Folder) (path : string) : bool :=
  match folder with
  | None => true
  | Some f =>
      String.prefix (String.append (Folder_PublicPath f) (String PathSeparator EmptyString)) path
  end.

(** Modelled from the spec: [term] occurs in [s] as a substring, the match
    of a search. *)
Definition contains (term s : string) : bool :=
  match String.index 0 term s with
  | Some _ => true
  | None => false
  end.

(** Modelled from the spec: the selection of the files of a category under
    a parent folder, before any search or limit. *)
Definition FileSelect (category : Category) (folder : option Folder) (op : Operation)
  : Select File :=
  let in_category r := File_CategoryID r =? Category_ID category in
  mkSelect (Err op)
    (filter (fun r => in_category r
                      && (File_FolderID r =? match folder with Some p => Folder_ID p | None => 0 end))
            (Files op))
    (filter (fun r => in_category r && under folder (File_PublicPath r)) (Files op))
    false (fun _ => true) None.

(** Modelled from the spec: the same selection over folders. *)
Definition FolderSelect (category : Category) (folder : option Folder) (op : Operation)
  : Select Folder :=
  let in_category r := Folder_CategoryID r =? Category_ID category in
  mkSelect (Err op)
    (filter (fun r => in_category r
                      && (Folder_FolderID r =? match folder with Some p => Folder_ID p | None => 0 end))
            (Folders op))
    (filter (fun r => in_category r && under folder (Folder_PublicPath r)) (Folders op))
    false (fun _ => true) None.

(** Modelled from the spec: [TreeMode], [Search] and [Limit] set the mode,
    the search and the limit of a selection. *)
Definition Select_TreeMode {A : Type} (mode : bool) (sel : Select A) : Select A :=
  mkSelect (Select_err sel) (Select_children sel) (Select_descendants sel) mode
    (Select_search sel) (Select_limit sel).

Definition Select_Search {A : Type} (column : A -> string) (term : string) (sel : Select A)
  : Select A :=
  mkSelect (Select_err sel) (Select_children sel) (Select_descendants sel) (Select_tree sel)
    (fun r => contains term (column r)) (Select_limit sel).

Definition Select_Limit {A : Type} (limit : N) (sel : Select A) : Select A :=
  mkSelect (Select_err sel) (Select_children sel) (Select_descendants sel) (Select_tree sel)
    (Select_search sel) (Some limit).

(** Modelled from the spec: all the rows the selection matches, before the
    limit. *)
Definition Select_matches {A : Type} (sel : Select A) : list A :=
  filter (Select_search sel)
    (if Select_tree sel then Select_descendants sel else Select_children sel).

(** Modelled from the spec: [AllObjects] returns the capped rows and the
    total number of matching rows, which does not depend on the limit. *)
Definition Select_AllObjects {A : Type} (sel : Select A) : (list A * N) * option error :=
  match Select_err sel with
  | Some e => (([], 0%N), Some e)
  | None =>
      let rows := Select_matches sel in
      let capped :=
        match Select_limit sel with
        | Some n => firstn (N.to_nat n) rows
        | None => rows
        end in
      ((capped, N.of_nat (List.length rows)), None)
  end.

Definition GetFolders (category : Category) (folder : option Folder) (op : Operation)
  : list Folder * option error :=
  let sel := FolderSelect category folder op in
  let '((folders, _), err) := Select_AllObjects sel in
  (folders, err).

Definition GetFiles (category : Category) (folder : option Folder) (limit : N)
    (op : Operation) : (list File * N) * option error :=
  let sel := Select_Limit limit (FileSelect category folder op) in
  Select_AllObjects sel.

Definition SearchFiles (category : Category) (folder : option Folder) (term : string)
    (limit : N) (op : Operation) : (list File * N) * option error :=
  let sel :=
    Select_Limit limit
      (Select_Search File_PublicPath term (Select_TreeMode true (FileSelect category folder op))) in
  Select_AllObjects sel.

Definition SearchFolders (category : Category) (folder : option Folder) (term : string)
    (limit : N) (op : Operation) : (list Folder * N) * option error :=
  let sel :=
    Select_Limit limit
      (Select_Search Folder_Name term (Select_TreeMode true (FolderSelect category folder op))) in
  Select_AllObjects sel.

(** The matching descendants: the rows of the category in the subtree whose
    column holds the term. *)
Definition matching_files (category : Category) (folder : option Folder) (term : string)
    (op : Operation) : list File :=
  filter (fun r => contains term (File_PublicPath r))
    (filter (fun r => (File_CategoryID r =? Category_ID category)
                      && under folder (File_PublicPath r)) (Files op)).

Definition matching_folders (category : Category) (folder : option Folder) (term : string)
    (op : Operation) : list Folder :=
  filter (fun r => contains term (Folder_Name r))
    (filter (fun r => (Folder_CategoryID r =? Category_ID category)
                      && under folder (Folder_PublicPath r)) (Folders op)).

(** The job the query of [ProcessArchiveJob] returns. *)
Definition selected (now : Time) (jobs : list ArchiveJob) : option ArchiveJob :=
  hd_error (Limit 1 (Order created_before (Where (due now) jobs))).

(** Every stored job carries the nonzero key storage gave it, so that saving
    it again is an update. *)
Definition jobs_saved (op : Operation) : Prop :=
  Forall (fun r => ArchiveJob_ID r <> 0) (ArchiveJobs op).

(** A later call on the queue, and a run of such calls: the jobs handed to
    the callbacks, in order, and the operation at the end. *)
Inductive QueueCall (Addr : Type) :=
| Enqueue (now : Time) (addrs : list Addr) (files : list File)
| Process (cb : ArchiveJob -> bool) (now now' : Time).
Arguments Enqueue {Addr} now addrs files.
Arguments Process {Addr} cb now now'.

Fixpoint run_queue {Addr : Type} `{Stringer Addr} (calls : list (QueueCall Addr))
    (op : Operation) : list ArchiveJob * Operation :=
  match calls with
  | [] => ([], op)
  | Enqueue now addrs files :: rest =>
      run_queue rest (snd (QueueArchiveJob now addrs files op))
  | Process cb now now' :: rest =>
      let '((_, claimed), op') := ProcessArchiveJob cb now now' op in
      let (more, op'') := run_queue rest op' in
      (claimed ++ more, op'')
  end.


(** ** Reading [GetFilesByIDs] *)

(** The id lists handed to [appendFiles], in order. *)
Fixpoint batches (fuel : nat) (ids : list Z) : list (list Z) :=
  match fuel with
  | O => []
  | S fuel' =>
      if (maxBatch <? List.length ids)%nat then
        firstn maxBatch ids :: batches fuel' (skipn maxBatch ids)
      else if (0 <? List.length ids)%nat then [ids] else []
  end.

Definition GetFilesByIDs_batches (ids : list Z) : list (list Z) :=
  batches (S (List.length ids)) ids.

Definition requested (ids : list Z) (r : File) : bool := existsb (Z.eqb (File_ID r)) ids.

Definition exists_in (rows : list File) (id : Z) : bool :=
  existsb (fun r => File_ID r =? id) rows.



(** What [PopulateCategories] makes of a fetched row. *)
Definition populated (op : Operation) (f : File) : File :=
  File_with_Category (categoryLookup (fst (AllCategories op)) (File_CategoryID f)) f.

(** ** Reading the find-or-create operations *)

Definition parent_key (f : option Folder) : Z :=
  match f with Some p => Folder_ID p | None => 0 end.

Definition Folder_with_Folder (p : option Folder) (f : Folder) : Folder :=
  mkFolder (Folder_ID f) (Folder_Category f) (Folder_CategoryID f) p
    (Folder_FolderID f) (Folder_Depth f) (Folder_PublicPath f) (Folder_Name f).

(** ** A small archive, on which the operations are run *)

(** Addresses given by their rendering. *)
#[export] Instance rendered_address : Stringer string := {| String_ s := s |}.

Definition op_empty : Operation := mkOperation None [] [] [] [] [].

Definition file_a : File := mkFile 1 None 1 0 1 "/vol/P/2020-01-01/a/x.tif" "a/x.tif".
Definition file_b : File := mkFile 2 None 2 0 1 "/vol/Q/2020-01-01/a/X.tif" "a/X.tif".
Definition file_c : File := mkFile 3 None 1 0 0 "/vol/P/2020-01-01/top.tif" "top.tif".

(** A job queued at instant 1000, then claimed at 1001 by a callback that
    reports failure at 1002. *)
Definition op_queued : Operation :=
  snd (QueueArchiveJob 1000 ["a@example.org"%string] [file_a] op_empty).

Definition category_P : Category := mkCategory 1 "P".

(** Two stored folders, and a folder object that was never saved (id 0). *)
Definition folder_1 : Folder := mkFolder 1 None 1 None 0 0 "2020-01-01" "2020-01-01".
Definition folder_2 : Folder := mkFolder 2 None 1 None 0 0 "2021-06-30" "2021-06-30".
Definition folder_unsaved : Folder := mkFolder 0 None 1 None 0 0 "" "".

(** The folder ["2020-01-01/sub"] created with no parent. *)
Definition op_top_folder : Operation :=
  snd (FindOrCreateFolder category_P None "2020-01-01/sub" op_empty).

(** The directory ["/vol/P/2020-01-01/sub"] recorded under [folder_1]. *)
Definition op_real_folder : Operation :=
  match FindOrCreateRealFolder (Some folder_1) "/vol/P/2020-01-01/sub" op_empty with
  | Return (_, op) => op
  | Panic _ => op_empty
  end.

Definition category_Q : Category := mkCategory 2 "Q".

(** Three files; [file_a] and [file_b] lie in different categories at the
    same depth, and their public paths differ by letter case only. *)
Definition op_files : Operation :=
  mkOperation None [file_a; file_b; file_c] [] [] [category_P; category_Q] [].

(** 999 ids, 10 to 1008, of no stored file. *)
Definition padding : list Z := map Z.of_nat (seq 10 999).

Definition ids_repeated : list Z := 1 :: padding ++ [2; 1].

Fixpoint distinct (l : list Z) : bool :=
  match l with
  | [] => true
  | x :: rest => negb (existsb (Z.eqb x) rest) && distinct rest
  end.

(** * The rest of the code *)

(** ** Transactions *)






(** ** Keys of the catalogue tables *)

(** Category rows have distinct names and distinct nonzero ids. *)
Definition categories_keyed (op : Operation) : Prop :=
  NoDup (map Category_Name (Categories op)) /\
  NoDup (map Category_ID (Categories op)) /\
  Forall (fun r => Category_ID r <> 0) (Categories op).

Definition Folder_key (r : Folder) : Z * string := (Folder_CategoryID r, Folder_PublicPath r).

(** Folder rows have distinct (category, public path) pairs and distinct
    nonzero ids. *)
Definition folders_keyed (op : Operation) : Prop :=
  NoDup (map Folder_key (Folders op)) /\
  NoDup (map Folder_ID (Folders op)) /\
  Forall (fun r => Folder_ID r <> 0) (Folders op).

(** The depth and the name of a folder are the ones its public path gives. *)
Definition Folder_derived (r : Folder) : Prop :=
  Folder_Depth r = Z.of_nat (strings_Count (Folder_PublicPath r) PathSeparator) /\
  Folder_Name r = snd (filepath_Split (Folder_PublicPath r)).


(** ** Zip jobs: the queue of the earlier revision

    In the earlier revision of the package the queue holds zip jobs; a job
    that succeeds is deleted, and no job is ever put off. *)

(** The struct [ZipJob] is declared in a file of the package that is not at
    hand; its fields are the ones [QueueZipJob] and [ProcessZipJob] read
    and write. *)
Record ZipJob := mkZipJob {
  ZipJob_ID : Z;
  ZipJob_CreatedAt : Time;
  ZipJob_NotificationEmails : string;
  ZipJob_Files : string
}.

#[export] Instance ZipJob_Row : Row ZipJob := {|
  pk := ZipJob_ID;
  with_pk id j := mkZipJob id (ZipJob_CreatedAt j) (ZipJob_NotificationEmails j) (ZipJob_Files j);
  columns j := j
|}.

(** The operation of that revision, with the one table the zip-job functions
    touch. *)
Record ZipOperation := mkZipOperation {
  ZipErr : option error;
  ZipJobs : list ZipJob
}.

(** [Exec("DELETE FROM ... WHERE id = ?", id)]. *)
Definition Exec_delete {A : Type} `{Row A} (err : option error) (rows : list A) (id : Z)
  : list A :=
  match err with
  | Some _ => rows
  | None => filter (fun r => negb (pk r =? id)) rows
  end.

Definition no_zip_files : error := Errorf "no files to zip".
Definition no_zip_addresses : error := Errorf "no notification addresses for zip job".

Definition QueueZipJob {Addr : Type} `{Stringer Addr} (now : Time)
    (addrs : list Addr) (files : list File) (op : ZipOperation) : option error * ZipOperation :=
  if (List.length files =? 0)%nat then (Some no_zip_files, op)
  else if (List.length addrs =? 0)%nat then (Some no_zip_addresses, op)
  else
    let filePaths := map File_FullPath files in
    let emails := map String_ addrs in
    let (rows, _) :=
      Save (ZipErr op) (ZipJobs op)
        (mkZipJob 0 now (strings_Join emails ",") (strings_Join filePaths RS)) in
    (ZipErr op, mkZipOperation (ZipErr op) rows).

Definition zip_created_before (a b : ZipJob) : bool :=
  ZipJob_CreatedAt a <? ZipJob_CreatedAt b.

(** The query has no [Where]; the check of [ok] comes before the check of
    the error.  The jobs the callback was called with are returned next to
    the error. *)
Definition ProcessZipJob (cb : ZipJob -> bool) (op : ZipOperation)
  : (option error * list ZipJob) * ZipOperation :=
  let ok := First (ZipErr op) (Limit 1 (Order zip_created_before (ZipJobs op))) in
  match ok with
  | None => ((None, []), op)
  | Some zj =>
      match ZipErr op with
      | Some e => ((Some e, []), op)
      | None =>
          if cb zj then
            let rows := Exec_delete (ZipErr op) (ZipJobs op) (ZipJob_ID zj) in
            ((ZipErr op, [zj]), mkZipOperation (ZipErr op) rows)
          else ((None, [zj]), op)
      end
  end.

(** ** Breadcrumbs *)

(** [strings.Split(s, string(sep))] for a one-byte separator: a string
    without separator, the empty one included, is a single piece. *)
Fixpoint strings_Split (s : string) (sep : ascii) : list string :=
  match s with
  | EmptyString => [EmptyString]
  | String c rest =>
      if Ascii.eqb c sep then EmptyString :: strings_Split rest sep
      else
        match strings_Split rest sep with
        | piece :: pieces => String c piece :: pieces
        | [] => [String c EmptyString]
        end
  end.

(** [db.Project] and [db.Folder] are declared in a file that is not at
    hand; they are taken with the fields the breadcrumbs read and write: a
    project has a name, a folder a project and a path. *)
Record Project := mkProject {
  Project_Name : string
}.

Record ProjectFolder := mkProjectFolder {
  ProjectFolder_Project : option Project;
  ProjectFolder_Path : string
}.

Record breadCrumb := mkBreadCrumb {
  breadCrumb_label : string;
  breadCrumb_url : string
}.

Record breadCrumbs := mkBreadCrumbs {
  breadCrumbs_list : list breadCrumb
}.

(** The double quote. *)
Definition dquote : string := String (ascii_of_nat 34) EmptyString.

(** [fmt.Sprintf] of the item; the attribute follows the closing quote of
    the link without a space, as the format has it. *)
Definition breadCrumb_li (c : breadCrumb) (last : bool) : string :=
  let aria :=
    if last then String.append "aria-current=" (String.append dquote (String.append "page" dquote))
    else EmptyString in
  String.append "<li><a href="
    (String.append dquote
       (String.append (breadCrumb_url c)
          (String.append dquote
             (String.append aria
                (String.append ">" (String.append (breadCrumb_label c) "</a></li>")))))).

Definition breadCrumbs_add (label url : string) (c : breadCrumbs) : breadCrumbs :=
  mkBreadCrumbs (breadCrumbs_list c ++ [mkBreadCrumb label url]).

Definition wrapperOpen : string :=
  String.append "<nav aria-label="
    (String.append dquote
       (String.append "Breadcrumb"
          (String.append dquote
             (String.append "><ol class="
                (String.append dquote (String.append "breadcrumb" (String.append dquote ">"))))))).

Definition wrapperClose : string := "</ol></nav>".

(** The items, each rendered with [i == len(c.list)-1]. *)
Definition breadCrumbs_items (c : breadCrumbs) : list string :=
  let n := List.length (breadCrumbs_list c) in
  map (fun ic => breadCrumb_li (snd ic) (Z.of_nat (fst ic) =? Z.of_nat n - 1))
      (combine (seq 0 n) (breadCrumbs_list c)).

Definition breadCrumbs_nav (c : breadCrumbs) : string :=
  String.append wrapperOpen
    (String.append (strings_Join (breadCrumbs_items c) EmptyString) wrapperClose).

(** The crumbs [breadcrumbs] collects for a project.  The two link builders
    and [filepath.Join] are taken as given: the builders are declared in a
    file that is not at hand, and nothing stated below depends on how paths
    are joined. *)
Definition breadcrumbs_crumbs (browseProjectPath : Project -> string)
    (browseFolderPath : ProjectFolder -> string) (filepath_Join : string -> string -> string)
    (p : Project) (f : option ProjectFolder) : breadCrumbs :=
  let crumbs := breadCrumbs_add (Project_Name p) (browseProjectPath p) (mkBreadCrumbs []) in
  let folderPathParts :=
    match f with
    | Some f => strings_Split (ProjectFolder_Path f) PathSeparator
    | None => []
    end in
  let dummyFolder := mkProjectFolder (Some p) EmptyString in
  snd (fold_left
         (fun (state : ProjectFolder * breadCrumbs) part =>
            let (dummy, crumbs) := state in
            let dummy' :=
              mkProjectFolder (ProjectFolder_Project dummy)
                (filepath_Join (ProjectFolder_Path dummy) part) in
            (dummy', breadCrumbs_add part (browseFolderPath dummy') crumbs))
         folderPathParts (dummyFolder, crumbs)).

Definition breadcrumbs (browseProjectPath : Project -> string)
    (browseFolderPath : ProjectFolder -> string) (filepath_Join : string -> string -> string)
    (p : option Project) (f : option ProjectFolder) : string :=
  match p with
  | None => EmptyString
  | Some p =>
      breadCrumbs_nav (breadcrumbs_crumbs browseProjectPath browseFolderPath filepath_Join p f)
  end.

(** The condition of [FindFolderByPath]. *)
Definition folder_at (c : Category) (path : string) (r : Folder) : bool :=
  (Folder_CategoryID r =? Category_ID c) && String.eqb (Folder_PublicPath r) path.

(** The row [FindOrCreateFolder] stores for a path not yet in the table. *)
Definition new_folder_row (c : Category) (f : option Folder) (path : string) (id : Z)
  : Folder :=
  mkFolder id None (Category_ID c) None (parent_key f)
    (Z.of_nat (strings_Count path PathSeparator)) path (snd (filepath_Split path)).

(** Category names in ascending order, letter case aside. *)
Definition Category_before (a b : Category) : Prop :=
  String.ltb (strings_ToLower (Category_Name b)) (strings_ToLower (Category_Name a)) = false.



(** * Properties *)

(** ** Byte-wise string order *)

Lemma ascii_compare_Lt_trans (a b c : ascii) :
  Ascii.compare a b = Lt -> Ascii.compare b c = Lt -> Ascii.compare a c = Lt.
Proof.
  unfold Ascii.compare. rewrite !N.compare_lt_iff. apply N.lt_trans.
Qed.

Lemma string_compare_Lt_trans (s1 : string) :
  forall s2 s3, String.compare s1 s2 = Lt -> String.compare s2 s3 = Lt ->
                String.compare s1 s3 = Lt.
Proof.
  induction s1 as [|c1 s1 IH]; intros [|c2 s2] [|c3 s3]; simpl; try congruence.
  destruct (Ascii.compare c1 c2) eqn:E12; try discriminate;
    destruct (Ascii.compare c2 c3) eqn:E23; try discriminate; intros H12 H23.
  - apply Ascii.compare_eq_iff in E12, E23. subst.
    rewrite (proj2 (N.compare_eq_iff _ _) eq_refl : Ascii.compare c3 c3 = Eq).
    eauto.
  - apply Ascii.compare_eq_iff in E12. subst. now rewrite E23.
  - apply Ascii.compare_eq_iff in E23. subst. now rewrite E12.
  - now rewrite (ascii_compare_Lt_trans _ _ _ E12 E23).
Qed.

Lemma string_ltb_asym (a b : string) : String.ltb a b = true -> String.ltb b a = false.
Proof.
  unfold String.ltb. rewrite (String.compare_antisym b a).
  now destruct (String.compare a b).
Qed.

Lemma string_ltb_negtrans (a b c : string) :
  String.ltb a b = false -> String.ltb b c = false -> String.ltb a c = false.
Proof.
  unfold String.ltb. intros Hab Hbc.
  destruct (String.compare a b) eqn:Eab; try discriminate.
  - apply String.compare_eq_iff in Eab. now subst.
  - destruct (String.compare b c) eqn:Ebc; try discriminate.
    + apply String.compare_eq_iff in Ebc. subst. now rewrite Eab.
    + assert (Hba : String.compare b a = Lt)
        by (rewrite String.compare_antisym, Eab; reflexivity).
      assert (Hcb : String.compare c b = Lt)
        by (rewrite String.compare_antisym, Ebc; reflexivity).
      rewrite String.compare_antisym, (string_compare_Lt_trans _ _ _ Hcb Hba).
      reflexivity.
Qed.


(** ** Sorting *)

Section SortFacts.
Context {A : Type}.
Variable less : A -> A -> bool.

Lemma insert_left_perm (x : A) (r : list A) : Permutation (insert_left less x r) (x :: r).
Proof.
  induction r as [|y r IH]; simpl; [reflexivity|].
  destruct (less x y); [|reflexivity].
  rewrite IH. apply perm_swap.
Qed.

Lemma insertion_fold_perm (data acc : list A) :
  Permutation (fold_left (fun rp x => insert_left less x rp) data acc) (data ++ acc).
Proof.
  revert acc. induction data as [|x data IH]; intro acc; simpl; [reflexivity|].
  rewrite IH, insert_left_perm. symmetry. apply Permutation_middle.
Qed.

Lemma insertionSort_perm (data : list A) : Permutation (insertionSort less data) data.
Proof.
  unfold insertionSort. rewrite <- Permutation_rev, insertion_fold_perm.
  now rewrite app_nil_r.
Qed.

Lemma sort_Slice_perm (data : list A) : Permutation (sort_Slice data less) data.
Proof. apply insertionSort_perm. Qed.

Hypothesis less_asym : forall a b, less a b = true -> less b a = false.
Hypothesis less_negtrans :
  forall a b c, less a b = false -> less b c = false -> less a c = false.

Lemma insert_left_descending (x : A) (r : list A) :
  descending less r -> descending less (insert_left less x r).
Proof.
  unfold descending. induction 1 as [|y r Hr IH Hy]; simpl.
  - repeat constructor.
  - destruct (less x y) eqn:Exy.
    + constructor; [exact IH|].
      rewrite (insert_left_perm x r). constructor; [now apply less_asym | exact Hy].
    + constructor; [now constructor|].
      constructor; [exact Exy|].
      rewrite Forall_forall in Hy |- *. intros z Hz. eauto.
Qed.

Lemma insertion_fold_descending (data acc : list A) :
  descending less acc -> descending less (fold_left (fun rp x => insert_left less x rp) data acc).
Proof.
  revert acc. induction data as [|x data IH]; intros acc Hacc; simpl; [exact Hacc|].
  apply IH, insert_left_descending, Hacc.
Qed.

Lemma StronglySorted_snoc (R : A -> A -> Prop) (l : list A) (x : A) :
  StronglySorted R l -> Forall (fun y => R y x) l -> StronglySorted R (l ++ [x]).
Proof.
  induction 1 as [|y l Hl IH Hy]; intro Hx; simpl.
  - repeat constructor.
  - inversion Hx; subst. constructor; [now apply IH|].
    apply Forall_app. split; [exact Hy | now repeat constructor].
Qed.

Lemma descending_rev (l : list A) : descending less l -> StronglySorted (not_after less) (rev l).
Proof.
  unfold descending. induction 1 as [|y l Hl IH Hy]; simpl; [constructor|].
  apply StronglySorted_snoc; [exact IH|].
  apply Forall_rev. exact Hy.
Qed.

Lemma insertionSort_sorted (data : list A) :
  StronglySorted (not_after less) (insertionSort less data).
Proof.
  apply descending_rev, insertion_fold_descending. constructor.
Qed.


End SortFacts.

(** ** The archive-job queue *)

Lemma hd_error_Limit_1 {A : Type} `{Row A} (rows : list A) :
  hd_error (Limit 1 rows) = hd_error rows.
Proof. now destruct rows. Qed.

Lemma created_before_asym (a b : ArchiveJob) :
  created_before a b = true -> created_before b a = false.
Proof. unfold created_before. rewrite Z.ltb_lt, Z.ltb_ge. lia. Qed.

Lemma created_before_negtrans (a b c : ArchiveJob) :
  created_before a b = false -> created_before b c = false -> created_before a c = false.
Proof. unfold created_before. rewrite !Z.ltb_ge. lia. Qed.

Lemma selected_Some (now : Time) (jobs : list ArchiveJob) (j : ArchiveJob) :
  selected now jobs = Some j ->
  In j jobs /\ due now j = true /\
  forall j', In j' jobs -> due now j' = true ->
             ArchiveJob_CreatedAt j <= ArchiveJob_CreatedAt j'.
Proof.
  unfold selected, Order, Where. rewrite hd_error_Limit_1. intro Hhd.
  pose proof (insertionSort_perm created_before (filter (due now) jobs)) as P.
  pose proof (insertionSort_sorted created_before created_before_asym
                created_before_negtrans (filter (due now) jobs)) as S.
  destruct (insertionSort created_before (filter (due now) jobs)) as [|h t] eqn:E;
    [discriminate|].
  injection Hhd as ->.
  assert (Hin : In j (filter (due now) jobs))
    by (eapply Permutation_in; [exact P | now left]).
  apply filter_In in Hin. destruct Hin as [Hin Hdue].
  repeat split; trivial.
  intros j' Hj' Hdue'.
  assert (Hin' : In j' (j :: t)).
  { eapply Permutation_in; [exact (Permutation_sym P)|]. now apply filter_In. }
  destruct Hin' as [->|Hin']; [lia|].
  inversion S as [|? ? _ F]; subst. rewrite Forall_forall in F.
  specialize (F j' Hin'). unfold not_after, created_before in F.
  apply Z.ltb_ge in F. exact F.
Qed.


Lemma due_iff (now : Time) (j : ArchiveJob) :
  due now j = true <-> ArchiveJob_Processed j = false /\ ArchiveJob_NextAttemptAt j < now.
Proof.
  unfold due. rewrite andb_true_iff, Z.ltb_lt, Bool.eqb_true_iff. tauto.
Qed.

(** What [ProcessArchiveJob] does on an operation without error, by the
    outcome of its query. *)
Lemma ProcessArchiveJob_unfold cb now now' op :
  Err op = None ->
  ProcessArchiveJob cb now now' op =
  match selected now (ArchiveJobs op) with
  | None => ((None, []), op)
  | Some j =>
      let j' := if cb j then ArchiveJob_with_Processed true j
                else ArchiveJob_with_NextAttemptAt (Time_Add now' Hour) j in
      ((None, [j]), with_ArchiveJobs (fst (Save None (ArchiveJobs op) j')) op)
  end.
Proof.
  intro E. unfold ProcessArchiveJob, selected, First. rewrite E.
  destruct (hd_error _) as [j|]; [|reflexivity].
  destruct (Save None (ArchiveJobs op) _) as [rows saved] eqn:ES.
  simpl. now rewrite E.
Qed.

Lemma ProcessArchiveJob_failed_operation cb now now' op e :
  Err op = Some e -> ProcessArchiveJob cb now now' op = ((Some e, []), op).
Proof. intro E. unfold ProcessArchiveJob. now rewrite E. Qed.




(** [Save] on an operation without error, for an object not yet stored. *)
Lemma Save_insert {A : Type} `{Row A} (rows : list A) (obj : A) :
  pk obj = 0 ->
  Save None rows obj =
  (rows ++ [columns (with_pk (next_pk rows) obj)], with_pk (next_pk rows) obj).
Proof. intro E. unfold Save. now rewrite E. Qed.

Lemma Save_update {A : Type} `{Row A} (rows : list A) (obj : A) :
  pk obj <> 0 ->
  Save None rows obj =
  (map (fun r => if pk r =? pk obj then columns obj else r) rows, obj).
Proof. intro E. unfold Save. apply Z.eqb_neq in E. now rewrite E. Qed.

Lemma next_pk_above {A : Type} `{Row A} (rows : list A) (r : A) :
  In r rows -> pk r < next_pk rows.
Proof.
  unfold next_pk. induction rows as [|x rows IH]; cbn [map fold_right In]; [tauto|].
  intros [->|Hin]; [lia|]. specialize (IH Hin). lia.
Qed.

Lemma next_pk_positive {A : Type} `{Row A} (rows : list A) : 0 < next_pk rows.
Proof.
  unfold next_pk. induction rows as [|x rows IH]; cbn [map fold_right]; lia.
Qed.

Lemma length_zero_iff_nil_b {A : Type} (l : list A) :
  (List.length l =? 0)%nat = false <-> l <> [].
Proof.
  destruct l; simpl; split; congruence.
Qed.

(** C2, as the code has it: an enqueue with a non-empty address list and a
    non-empty file list, on an operation without error, returns no error
    and appends exactly one job to the table: [createdAt] is [now],
    [nextAttemptAt] is the zero instant (it is not set), [processed] is
    false, [files] is the given full paths in order joined by the record
    separator and [notificationEmails] the given address strings in order
    joined by commas.  The job is due at every instant after the zero
    instant, hence immediately. *)
Theorem QueueArchiveJob_persists_one_job {Addr : Type} `{Stringer Addr}
    (now : Time) (addrs : list Addr) (files : list File) (op : Operation) :
  Err op = None -> addrs <> [] -> files <> [] ->
  let job :=
    mkArchiveJob (next_pk (ArchiveJobs op)) now zeroTime
      (strings_Join (map String_ addrs) ",")
      (strings_Join (map File_FullPath files) RS) false in
  QueueArchiveJob now addrs files op
  = (None, with_ArchiveJobs (ArchiveJobs op ++ [job]) op) /\
  (forall t, zeroTime < t -> due t job = true).
Proof.
  intros E Ha Hf job. split.
  - unfold QueueArchiveJob.
    rewrite (proj2 (length_zero_iff_nil_b files) Hf),
            (proj2 (length_zero_iff_nil_b addrs) Ha), E.
    rewrite Save_insert by reflexivity. simpl. now rewrite E.
  - intros t Ht. apply due_iff. split; [reflexivity | exact Ht].
Qed.

Lemma QueueArchiveJob_persists_one_job_witness :
  ArchiveJobs op_queued
  = [mkArchiveJob 1 1000 0 "a@example.org" "/vol/P/2020-01-01/a/x.tif" false].
Proof.
  pose proof (QueueArchiveJob_persists_one_job 1000 ["a@example.org"%string] [file_a]
                op_empty eq_refl) as W.
  destruct W as [W _]; [discriminate | discriminate |].
  unfold op_queued. rewrite W. reflexivity.
Defined.

(** A job queued at instant 1000 is stored with [nextAttemptAt] at the zero
    instant, not at 1000. *)
Lemma QueueArchiveJob_nextAttemptAt_is_not_now :
  exists j, ArchiveJobs (snd (QueueArchiveJob 1000 ["a@example.org"%string] [file_a] op_empty))
            = [j] /\
            ArchiveJob_CreatedAt j = 1000 /\ ArchiveJob_NextAttemptAt j <> 1000.
Proof.
  eexists. split; [reflexivity|]. split; [reflexivity | discriminate].
Qed.

(** C7: an enqueue with an empty file list or an empty address list returns
    an error and leaves the operation, hence the job table, as it was. *)
Theorem QueueArchiveJob_rejects_empty_lists {Addr : Type} `{Stringer Addr}
    (now : Time) (addrs : list Addr) (f : File) (files : list File) (op : Operation) :
  QueueArchiveJob now addrs [] op = (Some no_files, op) /\
  QueueArchiveJob now (@nil Addr) (f :: files) op = (Some no_addresses, op) /\
  (exists e, QueueArchiveJob now (@nil Addr) files op = (Some e, op)).
Proof.
  split; [reflexivity|]. split; [reflexivity|].
  destruct files; eexists; reflexivity.
Qed.

(** The job table after an enqueue: untouched, or one fresh unprocessed row
    longer. *)
Lemma QueueArchiveJob_table {Addr : Type} `{Stringer Addr}
    (now : Time) (addrs : list Addr) (files : list File) (op : Operation) :
  ArchiveJobs (snd (QueueArchiveJob now addrs files op)) = ArchiveJobs op \/
  exists j, ArchiveJobs (snd (QueueArchiveJob now addrs files op)) = ArchiveJobs op ++ [j] /\
            ArchiveJob_ID j = next_pk (ArchiveJobs op).
Proof.
  unfold QueueArchiveJob.
  destruct (List.length files =? 0)%nat; [now left|].
  destruct (List.length addrs =? 0)%nat; [now left|].
  destruct (Err op) as [e|]; [now left|].
  right. eexists. rewrite Save_insert by reflexivity. simpl. split; reflexivity.
Qed.

(** The job table after a claim: the claimed row is overwritten in place. *)
Lemma ProcessArchiveJob_table cb now now' op j :
  Err op = None -> selected now (ArchiveJobs op) = Some j -> ArchiveJob_ID j <> 0 ->
  ProcessArchiveJob cb now now' op =
  let j' := if cb j then ArchiveJob_with_Processed true j
            else ArchiveJob_with_NextAttemptAt (Time_Add now' Hour) j in
  ((None, [j]),
   with_ArchiveJobs
     (map (fun r => if ArchiveJob_ID r =? ArchiveJob_ID j then j' else r) (ArchiveJobs op)) op).
Proof.
  intros E Sel Hid. rewrite (ProcessArchiveJob_unfold cb now now' op E), Sel.
  cbv zeta. rewrite Save_update; [destruct (cb j); reflexivity|].
  destruct (cb j); exact Hid.
Qed.

Lemma jobs_saved_ID (op : Operation) (j : ArchiveJob) :
  jobs_saved op -> In j (ArchiveJobs op) -> ArchiveJob_ID j <> 0.
Proof. unfold jobs_saved. rewrite Forall_forall. auto. Qed.




(** The stored jobs keep nonzero keys. *)
Lemma jobs_saved_preserved {Addr : Type} `{Stringer Addr} (calls : list (QueueCall Addr)) :
  forall op, jobs_saved op -> jobs_saved (snd (run_queue calls op)).
Proof.
  induction calls as [|[t addrs files|cb t t'] calls IH]; intros op Hs; simpl.
  - exact Hs.
  - apply IH.
    destruct (QueueArchiveJob_table t addrs files op) as [E|(j & E & Hj)];
      unfold jobs_saved in *; rewrite E; [exact Hs|].
    apply Forall_app. split; [exact Hs|].
    pose proof (next_pk_positive (ArchiveJobs op)).
    constructor; [lia | constructor].
  - assert (Hs' : jobs_saved (snd (ProcessArchiveJob cb t t' op))).
    { destruct (Err op) as [e|] eqn:E.
      { now rewrite (ProcessArchiveJob_failed_operation cb t t' op e E). }
      destruct (selected t (ArchiveJobs op)) as [j|] eqn:Sel.
      2:{ now rewrite (ProcessArchiveJob_unfold cb t t' op E), Sel. }
      pose proof (selected_Some _ _ _ Sel) as (Hin & _ & _).
      pose proof (jobs_saved_ID op j Hs Hin) as Hnz.
      rewrite (ProcessArchiveJob_table cb t t' op j E Sel Hnz). cbv zeta. simpl.
      unfold jobs_saved in *. simpl. rewrite Forall_forall in Hs |- *.
      intros r Hr. apply in_map_iff in Hr. destruct Hr as (r1 & <- & Hr1).
      destruct (ArchiveJob_ID r1 =? ArchiveJob_ID j); [|auto].
      now destruct (cb j). }
    destruct (ProcessArchiveJob cb t t' op) as [[err claimed] op']. simpl in *.
    specialize (IH op' Hs').
    now destruct (run_queue calls op') as [more op''].
Qed.



(** ** Find-or-create *)

Lemma hd_error_None_nil {A : Type} (l : list A) : hd_error l = None -> l = [].
Proof. destruct l; [reflexivity | discriminate]. Qed.

(** A lookup that came back empty finds exactly the row appended since, when
    that row answers the condition. *)
Lemma Where_after_insert {A : Type} `{Row A} (cond : A -> bool) (rows : list A) (r : A) :
  hd_error (Where cond rows) = None -> cond r = true ->
  hd_error (Where cond (rows ++ [r])) = Some r.
Proof.
  unfold Where. intros Hnone Hr. apply hd_error_None_nil in Hnone.
  rewrite filter_app, Hnone. simpl. now rewrite Hr.
Qed.

Lemma FindOrCreateCategory_again (name : string) (op op1 : Operation) (c : Category) :
  FindOrCreateCategory name op = ((Some c, None), op1) ->
  FindOrCreateCategory name op1 = ((Some c, None), op1).
Proof.
  unfold FindOrCreateCategory, FindCategoryByName, First.
  destruct (Err op) as [e|] eqn:E; [discriminate|].
  destruct (hd_error _) as [found|] eqn:Hfind.
  - intro Hcall. injection Hcall as Hc Hop. subst. now rewrite E, Hfind.
  - rewrite Save_insert by reflexivity. cbn [fst snd]. intro Hcall.
    injection Hcall as Hc Hop. subst. cbn [Err Categories with_Categories].
    rewrite E.
    rewrite (Where_after_insert _ _ _ Hfind) by (cbn; apply String.eqb_refl).
    reflexivity.
Qed.

Lemma FindOrCreateFolder_again (c : Category) (f : option Folder) (path : string)
    (op op1 : Operation) (folder : Folder) :
  FindOrCreateFolder c f path op = ((Some folder, None), op1) ->
  FindOrCreateFolder c f path op1 = ((Some folder, None), op1).
Proof.
  unfold FindOrCreateFolder, FindFolderByPath, First.
  destruct (Err op) as [e|] eqn:E; [discriminate|].
  destruct (hd_error _) as [found|] eqn:Hfind.
  - destruct (negb _) eqn:Hparent; [discriminate|].
    intro Hcall. injection Hcall as Hc Hop. subst. now rewrite E, Hfind, Hparent.
  - destruct (filepath_Split path) as [dir filename].
    rewrite Save_insert by reflexivity. cbn [fst snd]. intro Hcall.
    injection Hcall as Hc Hop. subst. cbn [Err Folders with_Folders].
    rewrite E.
    rewrite (Where_after_insert _ _ _ Hfind)
      by (cbn; now rewrite Z.eqb_refl, String.eqb_refl).
    cbn. now rewrite Z.eqb_refl.
Qed.

Lemma FindOrCreateRealFolder_again (f : option Folder) (path : string)
    (op op1 : Operation) (folder : RealFolder) :
  FindOrCreateRealFolder f path op = Return ((Some folder, None), op1) ->
  FindOrCreateRealFolder f path op1 = Return ((Some folder, None), op1).
Proof.
  unfold FindOrCreateRealFolder, FindRealFolderByPath, First.
  destruct f as [p|]; [|discriminate].
  destruct (Err op) as [e|] eqn:E; [discriminate|].
  destruct (hd_error _) as [found|] eqn:Hfind.
  - destruct (negb _) eqn:Hparent; [discriminate|].
    intro Hcall. injection Hcall as Hc Hop. subst. now rewrite E, Hfind, Hparent.
  - rewrite Save_insert by reflexivity. cbn [fst snd]. intro Hcall.
    injection Hcall as Hc Hop. subst. cbn [Err RealFolders with_RealFolders].
    rewrite E.
    rewrite (Where_after_insert _ _ _ Hfind)
      by (cbn; now rewrite Z.eqb_refl, String.eqb_refl).
    cbn. now rewrite Z.eqb_refl.
Qed.

(** C5: a find-or-create that returned a record returns the very same
    record, the same identity included, when called again with the same
    arguments, and this second call leaves every table as it was: nothing is
    saved, no row is added. *)
Theorem FindOrCreate_idempotent :
  (forall name op op1 c,
     FindOrCreateCategory name op = ((Some c, None), op1) ->
     FindOrCreateCategory name op1 = ((Some c, None), op1)) /\
  (forall c f path op op1 folder,
     FindOrCreateFolder c f path op = ((Some folder, None), op1) ->
     FindOrCreateFolder c f path op1 = ((Some folder, None), op1)) /\
  (forall f path op op1 folder,
     FindOrCreateRealFolder f path op = Return ((Some folder, None), op1) ->
     FindOrCreateRealFolder f path op1 = Return ((Some folder, None), op1)).
Proof.
  split; [|split].
  - exact FindOrCreateCategory_again.
  - exact FindOrCreateFolder_again.
  - exact FindOrCreateRealFolder_again.
Qed.

Lemma FindOrCreate_idempotent_witness :
  FindOrCreateCategory "P" (with_Categories [category_P] op_empty)
  = ((Some category_P, None), with_Categories [category_P] op_empty) /\
  (exists folder,
     FindOrCreateFolder category_P None "2020-01-01/sub" op_top_folder
     = ((Some folder, None), op_top_folder) /\ Folder_ID folder = 1) /\
  (exists folder,
     FindOrCreateRealFolder (Some folder_1) "/vol/P/2020-01-01/sub" op_real_folder
     = Return ((Some folder, None), op_real_folder) /\ RealFolder_ID folder = 1).
Proof.
  destruct FindOrCreate_idempotent as (Hc & Hf & Hr).
  split; [|split].
  - apply (Hc "P"%string op_empty). reflexivity.
  - eexists. split; [apply (Hf category_P None "2020-01-01/sub"%string op_empty)|];
      reflexivity.
  - eexists. split; [apply (Hr (Some folder_1) "/vol/P/2020-01-01/sub"%string op_empty)|];
      reflexivity.
Defined.

(** On an operation without error the first call does return a record. *)
Lemma FindOrCreateCategory_returns (name : string) (op : Operation) :
  Err op = None ->
  exists c op1, FindOrCreateCategory name op = ((Some c, None), op1) /\
                Category_Name c = name.
Proof.
  intro E. unfold FindOrCreateCategory, FindCategoryByName, First. rewrite E.
  destruct (hd_error _) as [found|] eqn:Hfind.
  - exists found, op. split; [reflexivity|].
    destruct (Where _ (Categories op)) as [|x l] eqn:W; [discriminate|].
    injection Hfind as ->.
    assert (Hin : In found (Where (fun c => String.eqb (Category_Name c) name) (Categories op)))
      by (rewrite W; now left).
    apply filter_In in Hin. now apply String.eqb_eq.
  - rewrite Save_insert by reflexivity. cbn. rewrite E. eauto.
Qed.

(** The folder half of conflict detection: a folder found at
    (category, public path) whose stored parent key differs from the key of
    the supplied parent makes the call fail, and nothing is written. *)
Lemma FindOrCreateFolder_conflict (c : Category) (f : option Folder) (path : string)
    (op : Operation) (row : Folder) :
  FindFolderByPath c path op = (Some row, None) ->
  Folder_FolderID row <> parent_key f ->
  FindOrCreateFolder c f path op = ((None, Some different_parent), op).
Proof.
  unfold FindOrCreateFolder. intros -> Hdiff. fold (parent_key f).
  apply Z.eqb_neq in Hdiff. now rewrite Hdiff.
Qed.

(** The real-folder lookup is keyed by the supplied folder's own id, so the
    row it finds never differs from it: on an operation without error the
    call never answers with the different-folder error. *)
Lemma FindOrCreateRealFolder_never_conflicts (f : option Folder) (path : string)
    (op op' : Operation) :
  Err op = None ->
  FindOrCreateRealFolder f path op <> Return ((None, Some different_folder), op').
Proof.
  intro E. unfold FindOrCreateRealFolder, FindRealFolderByPath, First. rewrite E.
  destruct f as [p|]; [|discriminate].
  destruct (hd_error _) as [found|] eqn:Hfind.
  - destruct (Where _ (RealFolders op)) as [|x l] eqn:W; [discriminate|].
    injection Hfind as ->.
    assert (Hin : In found (Where (fun r => (RealFolder_FolderID r =? Folder_ID p)
                                   && String.eqb (RealFolder_FullPath r) path)
                              (RealFolders op)))
      by (rewrite W; now left).
    apply filter_In in Hin. destruct Hin as [_ Hc].
    apply andb_true_iff in Hc. destruct Hc as [Hc _]. rewrite Hc. discriminate.
  - rewrite Save_insert by reflexivity. discriminate.
Qed.

(** C4, at the failing input: the directory recorded under folder 1 is
    requested under folder 2.  The call returns a new record and no error,
    and the table holds a second row for the same full path. *)
Theorem FindOrCreateRealFolder_other_folder_inserts :
  RealFolders op_real_folder = [mkRealFolder 1 None 1 "/vol/P/2020-01-01/sub"] /\
  FindOrCreateRealFolder (Some folder_2) "/vol/P/2020-01-01/sub" op_real_folder
  = Return
      ((Some (mkRealFolder 2 (Some folder_2) 2 "/vol/P/2020-01-01/sub"), None),
       with_RealFolders
         [mkRealFolder 1 None 1 "/vol/P/2020-01-01/sub";
          mkRealFolder 2 None 2 "/vol/P/2020-01-01/sub"] op_empty).
Proof. split; reflexivity. Qed.

(** A real folder found or created under a folder carries that folder's id. *)
Lemma FindOrCreateRealFolder_key (p : Folder) (path : string) (op op' : Operation)
    (rf : RealFolder) :
  FindOrCreateRealFolder (Some p) path op = Return ((Some rf, None), op') ->
  RealFolder_FolderID rf = Folder_ID p.
Proof.
  unfold FindOrCreateRealFolder, FindRealFolderByPath, First.
  destruct (Err op) as [e|] eqn:E; [discriminate|].
  destruct (hd_error _) as [found|] eqn:Hfind.
  - destruct (RealFolder_FolderID found =? Folder_ID p) eqn:Hkey; [|discriminate].
    cbn. intro Hret. injection Hret as Hrf _. subst rf. cbn. now apply Z.eqb_eq.
  - rewrite Save_insert by reflexivity. cbn. intro Hret.
    injection Hret as Hrf _. subst rf. reflexivity.
Qed.

(** Without a folder object the lookup dereferences nil before anything is
    compared or written. *)
Lemma FindOrCreateRealFolder_nil (path : string) (op : Operation) :
  FindOrCreateRealFolder None path op = Panic nil_dereference.
Proof. reflexivity. Qed.

(** C9, as the code has it: the parent key is a plain integer and no parent
    is the key 0.  A find-or-create of a folder with no parent object and
    one with a parent object whose id is 0 run the same lookup with the same
    parent key: they return the same error, leave the same tables, and the
    records they return differ in nothing but the parent pointer handed
    back.  A real folder found or created under a folder whose id is 0
    carries the folder key 0. *)
Theorem FindOrCreateFolder_no_parent_is_parent_zero
    (c : Category) (p0 : Folder) (path : string) (op : Operation) :
  Folder_ID p0 = 0 ->
  parent_key (Some p0) = parent_key None /\
  snd (fst (FindOrCreateFolder c None path op))
  = snd (fst (FindOrCreateFolder c (Some p0) path op)) /\
  snd (FindOrCreateFolder c None path op) = snd (FindOrCreateFolder c (Some p0) path op) /\
  fst (fst (FindOrCreateFolder c None path op))
  = option_map (Folder_with_Folder None) (fst (fst (FindOrCreateFolder c (Some p0) path op))) /\
  (forall rf op', FindOrCreateRealFolder (Some p0) path op = Return ((Some rf, None), op') ->
                  RealFolder_FolderID rf = 0).
Proof.
  intro Hid. split; [exact Hid|].
  assert (Hreal : forall rf op',
             FindOrCreateRealFolder (Some p0) path op = Return ((Some rf, None), op') ->
             RealFolder_FolderID rf = 0).
  { intros rf op' Hret. rewrite <- Hid. exact (FindOrCreateRealFolder_key _ _ _ _ _ Hret). }
  unfold FindOrCreateFolder, FindFolderByPath, First. rewrite Hid.
  destruct (Err op) as [e|] eqn:E; [now repeat split|].
  destruct (hd_error (Where _ (Folders op))) as [found|] eqn:Hfind.
  - destruct (negb _); now repeat split.
  - destruct (filepath_Split path) as [dir filename].
    rewrite !Save_insert by reflexivity. cbn. now repeat split.
Qed.

Lemma FindOrCreateFolder_no_parent_is_parent_zero_witness :
  FindOrCreateFolder category_P None "2020-01-01/sub" op_empty
  = ((Some (mkFolder 1 (Some category_P) 1 None 0 1 "2020-01-01/sub" "sub"), None),
     op_top_folder) /\
  FindOrCreateFolder category_P (Some folder_unsaved) "2020-01-01/sub" op_empty
  = ((Some (mkFolder 1 (Some category_P) 1 (Some folder_unsaved) 0 1 "2020-01-01/sub" "sub"),
      None), op_top_folder).
Proof.
  pose proof (FindOrCreateFolder_no_parent_is_parent_zero category_P folder_unsaved
                "2020-01-01/sub" op_empty eq_refl) as (_ & _ & Hstore & _).
  split; [reflexivity|].
  unfold op_top_folder. rewrite Hstore. reflexivity.
Defined.

(** The record created with no parent is the record a call with a parent
    object of id 0 is answered with: same row, no error, nothing written. *)
Lemma FindOrCreateFolder_parent_zero_finds_parentless :
  Folder_ID folder_unsaved = 0 /\
  (exists created found,
     FindOrCreateFolder category_P None "2020-01-01/sub" op_empty
     = ((Some created, None), op_top_folder) /\
     FindOrCreateFolder category_P (Some folder_unsaved) "2020-01-01/sub" op_top_folder
     = ((Some found, None), op_top_folder) /\
     Folder_ID created = Folder_ID found /\
     Folders op_top_folder = [columns created]).
Proof.
  split; [reflexivity|]. do 2 eexists. repeat split.
Qed.

(** ** Batched lookup *)

Lemma maxBatch_positive : (0 < maxBatch)%nat.
Proof. unfold maxBatch. lia. Qed.

Lemma batches_step (fuel : nat) (ids : list Z) :
  batches (S fuel) ids =
  if (maxBatch <? List.length ids)%nat then
    firstn maxBatch ids :: batches fuel (skipn maxBatch ids)
  else if (0 <? List.length ids)%nat then [ids] else [].
Proof. reflexivity. Qed.

Lemma loop_step (fuel : nat) (files : list File) (ids : list Z) (op : Operation) :
  GetFilesByIDs_loop (S fuel) files ids op =
  if (maxBatch <? List.length ids)%nat then
    GetFilesByIDs_loop fuel (appendFiles files (firstn maxBatch ids) op)
      (skipn maxBatch ids) op
  else (files, ids).
Proof. reflexivity. Qed.

(** The ids are cut into consecutive batches, none empty and none longer
    than the maximum. *)
Lemma batches_concat (fuel : nat) :
  forall ids, (List.length ids < fuel)%nat -> List.concat (batches fuel ids) = ids.
Proof.
  pose proof maxBatch_positive as Hpos.
  induction fuel as [|fuel IH]; intros ids Hlen; [lia|].
  rewrite batches_step.
  destruct (Nat.ltb_spec maxBatch (List.length ids)) as [Hbig|Hsmall].
  - cbn [List.concat]. rewrite IH by (rewrite length_skipn; lia).
    apply firstn_skipn.
  - destruct ids as [|i ids]; [reflexivity|]. cbn. now rewrite app_nil_r.
Qed.


(** The loop, followed by the fetch of what it left, hands exactly the
    batches to [appendFiles]: the fuel never runs out. *)
Lemma loop_batches (op : Operation) (fuel : nat) :
  forall files ids, (List.length ids <= fuel)%nat ->
    (let (files', ids') := GetFilesByIDs_loop fuel files ids op in
     if (0 <? List.length ids')%nat then appendFiles files' ids' op else files')
    = fold_left (fun fs b => appendFiles fs b op) (batches (S fuel) ids) files.
Proof.
  pose proof maxBatch_positive as Hpos.
  induction fuel as [|fuel IH]; intros files ids Hlen.
  - destruct ids; [reflexivity | simpl in Hlen; lia].
  - rewrite loop_step, batches_step.
    destruct (Nat.ltb_spec maxBatch (List.length ids)) as [Hbig|Hsmall].
    + cbn [fold_left]. apply IH. rewrite length_skipn. lia.
    + now destruct (0 <? List.length ids)%nat.
Qed.

Lemma GetFilesByIDs_fetch_batches (ids : list Z) (op : Operation) :
  GetFilesByIDs_fetch ids op
  = fold_left (fun fs b => appendFiles fs b op) (GetFilesByIDs_batches ids) [].
Proof.
  unfold GetFilesByIDs_fetch, GetFilesByIDs_batches.
  apply (loop_batches op (List.length ids) [] ids). lia.
Qed.

Lemma appendFiles_rows (files : list File) (ids : list Z) (op : Operation) :
  Err op = None ->
  appendFiles files ids op = files ++ filter (requested ids) (Files op).
Proof. intro E. unfold appendFiles, AllObjects, Where. now rewrite E. Qed.

Lemma requested_app (b1 b2 : list Z) (r : File) :
  requested (b1 ++ b2) r = requested b1 r || requested b2 r.
Proof. apply existsb_app. Qed.

Lemma requested_In (ids : list Z) (r : File) :
  requested ids r = true <-> In (File_ID r) ids.
Proof.
  unfold requested. rewrite existsb_exists. split.
  - intros (x & Hin & Heq). apply Z.eqb_eq in Heq. now subst.
  - intro Hin. exists (File_ID r). split; [exact Hin | apply Z.eqb_refl].
Qed.

Lemma filter_disjoint_perm {A : Type} (p q : A -> bool) (l : list A) :
  (forall x, p x = true -> q x = true -> False) ->
  Permutation (filter (fun x => p x || q x) l) (filter p l ++ filter q l).
Proof.
  intro Hdis. induction l as [|x l IH]; simpl; [reflexivity|].
  destruct (p x) eqn:Hp, (q x) eqn:Hq; simpl.
  - destruct (Hdis x Hp Hq).
  - now apply perm_skip.
  - rewrite IH. apply Permutation_middle.
  - exact IH.
Qed.

(** Batches that share no id fetch each requested row once. *)
Lemma fetch_fold_perm (rows : list File) (bs : list (list Z)) :
  forall acc, NoDup (List.concat bs) ->
    Permutation (fold_left (fun fs b => fs ++ filter (requested b) rows) bs acc)
                (acc ++ filter (requested (List.concat bs)) rows).
Proof.
  induction bs as [|b bs IH]; intros acc Hnd; cbn [fold_left List.concat].
  - replace (filter (requested []) rows) with (@nil File)
      by (induction rows; [reflexivity | assumption]).
    now rewrite app_nil_r.
  - cbn [List.concat] in Hnd.
    rewrite IH by exact (NoDup_app_remove_l _ _ Hnd).
    rewrite <- app_assoc. apply Permutation_app_head.
    rewrite (filter_ext _ _ (requested_app b (List.concat bs))).
    symmetry. apply filter_disjoint_perm.
    intros r Hb Hbs. apply requested_In in Hb, Hbs.
    revert Hnd Hb Hbs. generalize (File_ID r). generalize (List.concat bs).
    clear. induction b as [|x b IHb]; intros l z Hnd Hb Hl; [destruct Hb|].
    inversion Hnd as [|? ? Hx Hnd']; subst.
    destruct Hb as [->|Hb]; [apply Hx, in_or_app; now right | eauto].
Qed.

Lemma fold_appendFiles (op : Operation) (bs : list (list Z)) :
  Err op = None ->
  forall acc,
    fold_left (fun fs b => appendFiles fs b op) bs acc
    = fold_left (fun fs b => fs ++ filter (requested b) (Files op)) bs acc.
Proof.
  intro E. induction bs as [|b bs IH]; intro acc; cbn [fold_left]; [reflexivity|].
  now rewrite appendFiles_rows, IH.
Qed.

(** Distinct ids fetch exactly the requested rows, each once. *)
Lemma GetFilesByIDs_fetch_perm (ids : list Z) (op : Operation) :
  Err op = None -> NoDup ids ->
  Permutation (GetFilesByIDs_fetch ids op) (filter (requested ids) (Files op)).
Proof.
  intros E Hnd.
  assert (Hcat : List.concat (GetFilesByIDs_batches ids) = ids)
    by (apply batches_concat; lia).
  rewrite GetFilesByIDs_fetch_batches, (fold_appendFiles op _ E).
  rewrite fetch_fold_perm by (rewrite Hcat; exact Hnd).
  now rewrite Hcat.
Qed.

(** Rows picked out of a table keyed by id still have distinct ids. *)
Lemma filter_keeps_distinct_ids (keep : File -> bool) (rows : list File) :
  NoDup (map File_ID rows) -> NoDup (map File_ID (filter keep rows)).
Proof.
  induction rows as [|r rows IH]; cbn [map filter]; intro Hnd; [constructor|].
  apply NoDup_cons_iff in Hnd. destruct Hnd as [Hfresh Hnd].
  destruct (keep r); cbn [map]; [|now apply IH].
  apply NoDup_cons; [|now apply IH].
  rewrite in_map_iff. intros (r' & Hid & Hin).
  apply filter_In in Hin. apply Hfresh. rewrite in_map_iff. exists r'. tauto.
Qed.

Lemma exists_in_In (rows : list File) (id : Z) :
  exists_in rows id = true <-> exists r, In r rows /\ File_ID r = id.
Proof.
  unfold exists_in. rewrite existsb_exists.
  split; intros (r & Hin & Hid); exists r; (split; [exact Hin|]);
    now apply Z.eqb_eq.
Qed.

(** With ids as primary key, the requested rows carry exactly the requested
    ids that exist, each once. *)
Lemma requested_rows_ids (ids : list Z) (rows : list File) :
  NoDup ids -> NoDup (map File_ID rows) ->
  Permutation (map File_ID (filter (requested ids) rows)) (filter (exists_in rows) ids).
Proof.
  intros Hids Hrows. apply NoDup_Permutation.
  - now apply filter_keeps_distinct_ids.
  - now apply NoDup_filter.
  - intro id. rewrite in_map_iff, filter_In, exists_in_In. split.
    + intros (r & Hid & Hin). apply filter_In in Hin. destruct Hin as [Hin Hreq].
      apply requested_In in Hreq. subst id. eauto.
    + intros (Hin & r & Hr & Hid). exists r. split; [exact Hid|].
      apply filter_In. split; [exact Hr|]. apply requested_In. now rewrite Hid.
Qed.







Lemma GetFilesByIDs_unfold (ids : list Z) (op : Operation) :
  Err op = None ->
  GetFilesByIDs ids op
  = (map (populated op) (sort_Slice (GetFilesByIDs_fetch ids op) File_less), None).
Proof.
  intro E. unfold GetFilesByIDs, PopulateCategories, populated, AllCategories.
  rewrite E. reflexivity.
Qed.


Lemma distinct_NoDup (l : list Z) : distinct l = true -> NoDup l.
Proof.
  induction l as [|x l IH]; simpl; intro H; constructor;
    apply andb_true_iff in H; destruct H as [Hx Hl]; [|auto].
  intro Hin. apply negb_true_iff in Hx.
  assert (existsb (Z.eqb x) l = true)
    by (apply existsb_exists; exists x; split; [exact Hin | apply Z.eqb_refl]).
  congruence.
Qed.


(** When every requested id exists, there are as many records as ids: 2500
    distinct existing ids give 2500 records. *)
Lemma GetFilesByIDs_all_existing (ids : list Z) (op : Operation) :
  Err op = None -> NoDup ids -> NoDup (map File_ID (Files op)) ->
  (forall id, In id ids -> exists_in (Files op) id = true) ->
  List.length (fst (GetFilesByIDs ids op)) = List.length ids.
Proof.
  intros E Hids Hrows Hall.
  rewrite GetFilesByIDs_unfold by exact E. cbn [fst].
  rewrite length_map, (Permutation_length (sort_Slice_perm File_less _)).
  rewrite (Permutation_length (GetFilesByIDs_fetch_perm ids op E Hids)).
  rewrite <- (length_map File_ID).
  rewrite (Permutation_length (requested_rows_ids ids (Files op) Hids Hrows)).
  f_equal. apply forallb_filter_id. apply forallb_forall. exact Hall.
Qed.




(** C10: an id that occurs at positions 0 and 1001 of the input falls into
    two batches, and the record of its file is returned twice. *)
Theorem GetFilesByIDs_repeats_row_across_batches :
  exists (op : Operation) (ids : list Z) (i j : nat) (id : Z),
    nth_error ids i = Some id /\ nth_error ids j = Some id /\ (i + 1000 < j)%nat /\
    exists_in (Files op) id = true /\
    NoDup (map File_ID (Files op)) /\
    List.length (filter (fun f => File_ID f =? id) (fst (GetFilesByIDs ids op))) = 2%nat.
Proof.
  exists op_files, ids_repeated, 0%nat, 1001%nat, 1.
  split; [reflexivity|].
  split; [vm_compute; reflexivity|].
  split; [lia|].
  split; [reflexivity|].
  split; [apply (distinct_NoDup [1; 2; 3]); reflexivity|].
  vm_compute. reflexivity.
Qed.

(** ** Searches *)

Lemma SearchFiles_result category folder term limit op :
  Err op = None ->
  SearchFiles category folder term limit op
  = ((firstn (N.to_nat limit) (matching_files category folder term op),
      N.of_nat (List.length (matching_files category folder term op))), None).
Proof. intro E. unfold SearchFiles, Select_AllObjects. cbn. now rewrite E. Qed.

Lemma SearchFolders_result category folder term limit op :
  Err op = None ->
  SearchFolders category folder term limit op
  = ((firstn (N.to_nat limit) (matching_folders category folder term op),
      N.of_nat (List.length (matching_folders category folder term op))), None).
Proof. intro E. unfold SearchFolders, Select_AllObjects. cbn. now rewrite E. Qed.

(** C8: the total a search returns is the same for any two limits, in
    particular for the limits 1 and 1000; on an operation without error it
    is the number of all matching descendants, and the rows returned are
    the first [limit] of them. *)
Theorem Search_total_independent_of_limit
    (category : Category) (folder : option Folder) (term : string) (limit limit' : N)
    (op : Operation) :
  snd (fst (SearchFiles category folder term limit op))
  = snd (fst (SearchFiles category folder term limit' op)) /\
  snd (fst (SearchFolders category folder term limit op))
  = snd (fst (SearchFolders category folder term limit' op)) /\
  snd (fst (SearchFiles category folder term 1 op))
  = snd (fst (SearchFiles category folder term 1000 op)) /\
  snd (fst (SearchFolders category folder term 1 op))
  = snd (fst (SearchFolders category folder term 1000 op)) /\
  match Err op with
  | Some e =>
      SearchFiles category folder term limit op = (([], 0%N), Some e) /\
      SearchFolders category folder term limit op = (([], 0%N), Some e)
  | None =>
      SearchFiles category folder term limit op
      = ((firstn (N.to_nat limit) (matching_files category folder term op),
          N.of_nat (List.length (matching_files category folder term op))), None) /\
      SearchFolders category folder term limit op
      = ((firstn (N.to_nat limit) (matching_folders category folder term op),
          N.of_nat (List.length (matching_folders category folder term op))), None)
  end.
Proof.
  destruct (Err op) as [e|] eqn:E.
  - unfold SearchFiles, SearchFolders, Select_AllObjects. cbn. rewrite E.
    repeat split.
  - rewrite !SearchFiles_result, !SearchFolders_result by exact E.
    repeat split.
Qed.

(** Two files of category P hold the term; a limit of 1 returns the first
    with the total 2, a limit of 1000 both with the total 2. *)
Example Search_limits :
  SearchFiles category_P None "tif" 1 (with_Categories [category_P] op_files)
  = (([file_a], 2%N), None) /\
  SearchFiles category_P None "tif" 1000 (with_Categories [category_P] op_files)
  = (([file_a; file_c], 2%N), None).
Proof. split; reflexivity. Qed.

(** * Further properties *)

(** ** Lookups *)

Lemma Where_first_None {A : Type} `{Row A} (cond : A -> bool) (rows : list A) :
  hd_error (Where cond rows) = None -> forall r, In r rows -> cond r = false.
Proof.
  intros Hnone r Hin. apply hd_error_None_nil in Hnone.
  destruct (cond r) eqn:C; [|reflexivity].
  assert (Hr : In r (Where cond rows)) by (apply filter_In; now split).
  rewrite Hnone in Hr. destruct Hr.
Qed.

Lemma Where_first_Some {A : Type} `{Row A} (cond : A -> bool) (rows : list A) (r : A) :
  hd_error (Where cond rows) = Some r -> In r rows /\ cond r = true.
Proof.
  intro Hsome. destruct (Where cond rows) as [|x l] eqn:W; [discriminate|].
  injection Hsome as ->. apply (filter_In cond). unfold Where in W. rewrite W. now left.
Qed.

(** A row appended to a table does not change what a lookup finds, unless
    the lookup found nothing and the row answers it. *)
Lemma Where_first_app {A : Type} `{Row A} (cond : A -> bool) (rows : list A) (r : A) :
  hd_error (Where cond (rows ++ [r])) =
  match hd_error (Where cond rows) with
  | Some x => Some x
  | None => if cond r then Some r else None
  end.
Proof.
  unfold Where. rewrite filter_app.
  destruct (filter cond rows) as [|x l]; cbn; [|reflexivity].
  now destruct (cond r).
Qed.

(** ** Categories *)

(** The two ways [FindOrCreateCategory] returns a record: the stored row of
    that name, or a new last row with a fresh key. *)
Lemma FindOrCreateCategory_cases (name : string) (op op1 : Operation) (c : Category) :
  FindOrCreateCategory name op = ((Some c, None), op1) ->
  Err op = None /\
  ((op1 = op /\ FindCategoryByName name op = (Some c, None) /\
    In c (Categories op) /\ Category_Name c = name) \/
   (op1 = with_Categories (Categories op ++ [c]) op /\
    c = mkCategory (next_pk (Categories op)) name /\
    forall r, In r (Categories op) -> Category_Name r <> name)).
Proof.
  unfold FindOrCreateCategory, FindCategoryByName, First.
  destruct (Err op) as [e|] eqn:E; [discriminate|].
  destruct (hd_error _) as [found|] eqn:Hfind.
  - intro Hcall. injection Hcall as Hc Hop. subst. split; [reflexivity|]. left.
    apply Where_first_Some in Hfind. destruct Hfind as [Hin Hname].
    apply String.eqb_eq in Hname. tauto.
  - rewrite Save_insert by reflexivity. cbn [fst snd]. intro Hcall.
    injection Hcall as Hc Hop. subst. split; [reflexivity|]. right.
    repeat split. intros r Hin Hname.
    pose proof (Where_first_None _ _ Hfind r Hin) as Hno. cbn in Hno.
    apply String.eqb_neq in Hno. contradiction.
Qed.

Lemma FindOrCreateCategory_store (name : string) (op : Operation) :
  snd (FindOrCreateCategory name op) = op \/
  (Err op = None /\
   (forall r, In r (Categories op) -> Category_Name r <> name) /\
   snd (FindOrCreateCategory name op)
   = with_Categories (Categories op ++ [mkCategory (next_pk (Categories op)) name]) op).
Proof.
  unfold FindOrCreateCategory, FindCategoryByName, First.
  destruct (Err op) as [e|] eqn:E; [now left|].
  destruct (hd_error _) as [found|] eqn:Hfind; [now left|].
  right. rewrite Save_insert by reflexivity. cbn [fst snd]. repeat split.
  intros r Hin Hname.
  pose proof (Where_first_None _ _ Hfind r Hin) as Hno. cbn in Hno.
  apply String.eqb_neq in Hno. contradiction.
Qed.

(** X1: after a find-or-create returned a category, the lookup by that name
    returns the same record, which is a row of the table, and the lookup by
    any other name answers as before. *)
Theorem FindOrCreateCategory_then_find (name : string) (op op1 : Operation) (c : Category) :
  FindOrCreateCategory name op = ((Some c, None), op1) ->
  FindCategoryByName name op1 = (Some c, None) /\
  In c (Categories op1) /\ Category_Name c = name /\
  forall other, other <> name ->
                FindCategoryByName other op1 = FindCategoryByName other op.
Proof.
  intro Hcall. apply FindOrCreateCategory_cases in Hcall. destruct Hcall as [E Hcase].
  destruct Hcase as [(-> & Hfind & Hin & Hname)|(-> & -> & Hfresh)].
  - repeat split; trivial.
  - assert (Hlook : forall n,
              FindCategoryByName n
                (with_Categories
                   (Categories op ++ [mkCategory (next_pk (Categories op)) name]) op)
              = (match fst (FindCategoryByName n op) with
                 | Some x => Some x
                 | None => if String.eqb name n
                           then Some (mkCategory (next_pk (Categories op)) name) else None
                 end, None)).
    { intro n. unfold FindCategoryByName, First. cbn [Err Categories with_Categories fst].
      rewrite E, Where_first_app. reflexivity. }
    repeat split.
    + rewrite Hlook. unfold FindCategoryByName, First. rewrite E. cbn [fst].
      destruct (hd_error _) as [x|] eqn:Hx.
      * apply Where_first_Some in Hx. destruct Hx as [Hin Hname].
        apply String.eqb_eq in Hname. destruct (Hfresh x Hin Hname).
      * now rewrite String.eqb_refl.
    + cbn. apply in_or_app. right. now left.
    + intros other Hother. rewrite Hlook.
      unfold FindCategoryByName, First. rewrite E. cbn [fst].
      destruct (hd_error _); [reflexivity|].
      apply not_eq_sym in Hother. apply String.eqb_neq in Hother. now rewrite Hother.
Qed.

Lemma FindOrCreateCategory_then_find_witness :
  FindCategoryByName "P" (snd (FindOrCreateCategory "P" op_empty)) = (Some category_P, None) /\
  FindCategoryByName "Q" (snd (FindOrCreateCategory "P" op_empty)) = (None, None).
Proof.
  destruct (FindOrCreateCategory_then_find "P" op_empty
              (with_Categories [category_P] op_empty) category_P eq_refl)
    as (Hfind & _ & _ & Hother).
  split; [exact Hfind|].
  change (snd (FindOrCreateCategory "P" op_empty)) with (with_Categories [category_P] op_empty).
  rewrite (Hother "Q"%string) by discriminate. reflexivity.
Defined.

Lemma NoDup_snoc {A : Type} (l : list A) (x : A) :
  NoDup l -> ~ In x l -> NoDup (l ++ [x]).
Proof.
  intros Hl Hx. apply NoDup_app; [exact Hl | repeat constructor; intros [] |].
  intros y Hy [<-|[]]. contradiction.
Qed.

(** X2: find-or-create keeps the category table keyed: names stay distinct,
    ids stay distinct and nonzero.  It adds at most one row, at the end, and
    touches no other table. *)
Theorem FindOrCreateCategory_keeps_keys (name : string) (op : Operation) :
  categories_keyed op ->
  categories_keyed (snd (FindOrCreateCategory name op)) /\
  (exists added, Categories (snd (FindOrCreateCategory name op)) = Categories op ++ added /\
                 (List.length added <= 1)%nat) /\
  Err (snd (FindOrCreateCategory name op)) = Err op /\
  Files (snd (FindOrCreateCategory name op)) = Files op /\
  Folders (snd (FindOrCreateCategory name op)) = Folders op /\
  RealFolders (snd (FindOrCreateCategory name op)) = RealFolders op /\
  ArchiveJobs (snd (FindOrCreateCategory name op)) = ArchiveJobs op.
Proof.
  intros (Hnames & Hids & Hnz).
  destruct (FindOrCreateCategory_store name op) as [->|(E & Hfresh & ->)].
  - repeat split; trivial.
    exists []. split; [now rewrite app_nil_r | simpl; lia].
  - unfold categories_keyed. cbn [Categories with_Categories].
    rewrite !map_app. cbn [map Category_Name Category_ID].
    repeat split.
    + apply NoDup_snoc; [exact Hnames|]. rewrite in_map_iff.
      intros (r & Hname & Hin). exact (Hfresh r Hin Hname).
    + apply NoDup_snoc; [exact Hids|]. rewrite in_map_iff.
      intros (r & Hid & Hin). pose proof (next_pk_above (Categories op) r Hin) as Hlt.
      change (Category_ID r < next_pk (Categories op)) in Hlt. lia.
    + apply Forall_app. split; [exact Hnz|]. constructor; [|constructor].
      pose proof (next_pk_positive (Categories op)). cbn beta iota delta [Category_ID]. lia.
    + eexists. split; [reflexivity | simpl; lia].
Qed.

Lemma FindOrCreateCategory_keeps_keys_witness :
  categories_keyed (snd (FindOrCreateCategory "Q" (with_Categories [category_P] op_empty))).
Proof.
  apply (FindOrCreateCategory_keeps_keys "Q" (with_Categories [category_P] op_empty)).
  repeat split; repeat constructor; cbn; try tauto; discriminate.
Defined.

(** ** Folders *)

Lemma folder_at_iff (c : Category) (path : string) (r : Folder) :
  folder_at c path r = true <->
  Folder_CategoryID r = Category_ID c /\ Folder_PublicPath r = path.
Proof.
  unfold folder_at. now rewrite andb_true_iff, Z.eqb_eq, String.eqb_eq.
Qed.

(** The two ways [FindOrCreateFolder] returns a record. *)
Lemma FindOrCreateFolder_cases (c : Category) (f : option Folder) (path : string)
    (op op1 : Operation) (r : Folder) :
  FindOrCreateFolder c f path op = ((Some r, None), op1) ->
  Err op = None /\
  ((exists row,
      op1 = op /\ FindFolderByPath c path op = (Some row, None) /\
      In row (Folders op) /\ folder_at c path row = true /\
      Folder_FolderID row = parent_key f /\
      r = mkFolder (Folder_ID row) (Some c) (Folder_CategoryID row) f (Folder_FolderID row)
            (Folder_Depth row) (Folder_PublicPath row) (Folder_Name row)) \/
   (op1 = with_Folders
            (Folders op ++ [new_folder_row c f path (next_pk (Folders op))]) op /\
    FindFolderByPath c path op = (None, None) /\
    (forall row, In row (Folders op) -> folder_at c path row = false) /\
    r = mkFolder (next_pk (Folders op)) (Some c) (Category_ID c) f (parent_key f)
          (Z.of_nat (strings_Count path PathSeparator)) path (snd (filepath_Split path)))).
Proof.
  unfold FindOrCreateFolder, FindFolderByPath, First. fold (parent_key f).
  fold (folder_at c path).
  destruct (Err op) as [e|] eqn:E; [discriminate|].
  destruct (hd_error _) as [found|] eqn:Hfind.
  - destruct (Folder_FolderID found =? parent_key f) eqn:Hparent; [|discriminate].
    cbn [negb]. intro Hcall. injection Hcall as Hr Hop. subst.
    split; [reflexivity|]. left. exists found.
    apply Where_first_Some in Hfind. destruct Hfind as [Hin Hat].
    apply Z.eqb_eq in Hparent. repeat split; trivial.
  - destruct (filepath_Split path) as [dir filename] eqn:Hsplit.
    rewrite Save_insert by reflexivity. cbn [fst snd]. intro Hcall.
    injection Hcall as Hr Hop. subst. split; [reflexivity|]. right.
    unfold new_folder_row. rewrite Hsplit. cbn [snd]. repeat split.
    exact (Where_first_None _ _ Hfind).
Qed.

(** What [FindOrCreateFolder] leaves, whatever it returns. *)
Lemma FindOrCreateFolder_store (c : Category) (f : option Folder) (path : string)
    (op : Operation) :
  snd (FindOrCreateFolder c f path op) = op \/
  (Err op = None /\
   (forall row, In row (Folders op) -> folder_at c path row = false) /\
   snd (FindOrCreateFolder c f path op)
   = with_Folders (Folders op ++ [new_folder_row c f path (next_pk (Folders op))]) op).
Proof.
  unfold FindOrCreateFolder, FindFolderByPath, First. fold (parent_key f).
  fold (folder_at c path).
  destruct (Err op) as [e|] eqn:E; [now left|].
  destruct (hd_error _) as [found|] eqn:Hfind.
  - destruct (negb _); now left.
  - right. destruct (filepath_Split path) as [dir filename] eqn:Hsplit.
    rewrite Save_insert by reflexivity. cbn [fst snd].
    unfold new_folder_row. rewrite Hsplit. cbn [snd]. repeat split.
    exact (Where_first_None _ _ Hfind).
Qed.

(** X3: when every stored folder has the depth and the name its public path
    gives, so has the record a find-or-create returns, and so has every
    stored folder afterwards.  The record carries the category and the
    parent handed in, the category's id, the parent key and the path, and
    its columns are a row of the table. *)
Theorem FindOrCreateFolder_record (c : Category) (f : option Folder) (path : string)
    (op op1 : Operation) (r : Folder) :
  Forall Folder_derived (Folders op) ->
  FindOrCreateFolder c f path op = ((Some r, None), op1) ->
  Folder_derived r /\ Forall Folder_derived (Folders op1) /\
  Folder_Category r = Some c /\ Folder_CategoryID r = Category_ID c /\
  Folder_Folder r = f /\ Folder_FolderID r = parent_key f /\
  Folder_PublicPath r = path /\
  In (columns r) (map columns (Folders op1)).
Proof.
  intros Hall Hcall. apply FindOrCreateFolder_cases in Hcall.
  destruct Hcall as [E [(row & -> & _ & Hin & Hat & Hparent & ->)|(-> & _ & _ & ->)]].
  - apply folder_at_iff in Hat. destruct Hat as [Hc Hp].
    rewrite Forall_forall in Hall. pose proof (Hall row Hin) as Hrow.
    repeat split; try (now apply Hrow); trivial.
    + now apply Forall_forall.
    + apply in_map_iff. exists row. split; [reflexivity | exact Hin].
  - repeat split.
    + cbn [Folders with_Folders]. apply Forall_app. split; [exact Hall|].
      repeat constructor.
    + cbn [Folders with_Folders]. rewrite map_app. apply in_or_app. right. now left.
Qed.

Lemma FindOrCreateFolder_record_witness :
  exists r, fst (fst (FindOrCreateFolder category_P (Some folder_1) "2020-01-01/sub/deep" op_top_folder))
            = Some r /\
            Folder_Depth r = 2 /\ Folder_Name r = "deep"%string /\ Folder_FolderID r = 1.
Proof.
  eexists. split; [reflexivity|].
  assert (Hall : Forall Folder_derived (Folders op_top_folder))
    by (repeat constructor).
  destruct (FindOrCreateFolder_record category_P (Some folder_1) "2020-01-01/sub/deep"
              op_top_folder _ _ Hall eq_refl)
    as ((Hdepth & Hname) & _ & _ & _ & _ & Hparent & _).
  split; [exact Hdepth|]. split; [exact Hname | exact Hparent].
Defined.





Lemma keyed_rows_equal {A K : Type} (key : A -> K) (rows : list A) (a b : A) :
  NoDup (map key rows) -> In a rows -> In b rows -> key a = key b -> a = b.
Proof.
  induction rows as [|x rows IH]; cbn [map In]; intros Hnd Ha Hb Hkey; [destruct Ha|].
  apply NoDup_cons_iff in Hnd. destruct Hnd as [Hx Hnd].
  destruct Ha as [->|Ha], Hb as [->|Hb]; trivial.
  - exfalso. apply Hx. rewrite Hkey. now apply in_map.
  - exfalso. apply Hx. rewrite <- Hkey. now apply in_map.
  - now apply IH.
Qed.

(** X5: find-or-create keeps the folder table keyed: (category, public
    path) pairs stay distinct, ids stay distinct and nonzero, whatever the
    call returns.  It adds at most one row, at the end, and touches no other
    table. *)
Theorem FindOrCreateFolder_keeps_keys (c : Category) (f : option Folder) (path : string)
    (op : Operation) :
  folders_keyed op ->
  folders_keyed (snd (FindOrCreateFolder c f path op)) /\
  (exists added, Folders (snd (FindOrCreateFolder c f path op)) = Folders op ++ added /\
                 (List.length added <= 1)%nat) /\
  Err (snd (FindOrCreateFolder c f path op)) = Err op /\
  Files (snd (FindOrCreateFolder c f path op)) = Files op /\
  Categories (snd (FindOrCreateFolder c f path op)) = Categories op /\
  RealFolders (snd (FindOrCreateFolder c f path op)) = RealFolders op /\
  ArchiveJobs (snd (FindOrCreateFolder c f path op)) = ArchiveJobs op.
Proof.
  intros (Hkeys & Hids & Hnz).
  destruct (FindOrCreateFolder_store c f path op) as [->|(E & Hfresh & ->)].
  - repeat split; trivial.
    exists []. split; [now rewrite app_nil_r | simpl; lia].
  - unfold folders_keyed. cbn [Folders with_Folders].
    rewrite !map_app. cbn [map].
    repeat split.
    + apply NoDup_snoc; [exact Hkeys|]. rewrite in_map_iff.
      intros (row & Hkey & Hin). specialize (Hfresh row Hin).
      unfold Folder_key, new_folder_row in Hkey. cbn in Hkey.
      injection Hkey as Hc Hp.
      assert (Hat : folder_at c path row = true) by (apply folder_at_iff; now split).
      congruence.
    + apply NoDup_snoc; [exact Hids|]. rewrite in_map_iff.
      intros (row & Hid & Hin). pose proof (next_pk_above (Folders op) row Hin) as Hlt.
      change (Folder_ID row < next_pk (Folders op)) in Hlt.
      unfold new_folder_row in Hid. cbn [Folder_ID] in Hid. lia.
    + apply Forall_app. split; [exact Hnz|]. constructor; [|constructor].
      pose proof (next_pk_positive (Folders op)).
      unfold new_folder_row. cbn beta iota delta [Folder_ID]. lia.
    + eexists. split; [reflexivity | simpl; lia].
Qed.

Lemma FindOrCreateFolder_keeps_keys_witness :
  folders_keyed
    (snd (FindOrCreateFolder category_P (Some folder_1) "2020-01-01/sub/deep" op_top_folder)).
Proof.
  apply (FindOrCreateFolder_keeps_keys category_P (Some folder_1) "2020-01-01/sub/deep"
           op_top_folder).
  repeat split; repeat constructor; cbn; try tauto; discriminate.
Defined.

(** X6: after a find-or-create returned a folder, the lookup at its
    category and path returns the row of that record, and the lookup at any
    other category or path answers as before. *)
Theorem FindOrCreateFolder_then_find (c : Category) (f : option Folder) (path : string)
    (op op1 : Operation) (r : Folder) :
  FindOrCreateFolder c f path op = ((Some r, None), op1) ->
  option_map columns (fst (FindFolderByPath c path op1)) = Some (columns r) /\
  snd (FindFolderByPath c path op1) = None /\
  forall c' path', Category_ID c' <> Category_ID c \/ path' <> path ->
                   FindFolderByPath c' path' op1 = FindFolderByPath c' path' op.
Proof.
  intro Hcall. apply FindOrCreateFolder_cases in Hcall.
  destruct Hcall as [E [(row & -> & Hfind & _ & _ & _ & ->)|(-> & Hnone & Hfresh & ->)]].
  - rewrite Hfind. repeat split.
  - assert (Hlook : forall c' path',
              FindFolderByPath c' path'
                (with_Folders
                   (Folders op ++ [new_folder_row c f path (next_pk (Folders op))]) op)
              = (match fst (FindFolderByPath c' path' op) with
                 | Some x => Some x
                 | None =>
                     if folder_at c' path' (new_folder_row c f path (next_pk (Folders op)))
                     then Some (new_folder_row c f path (next_pk (Folders op))) else None
                 end, None)).
    { intros c' path'. unfold FindFolderByPath, First.
      cbn [Err Folders with_Folders fst]. rewrite E, Where_first_app. reflexivity. }
    repeat split.
    + rewrite Hlook, Hnone. cbn [fst].
      assert (Hat : folder_at c path (new_folder_row c f path (next_pk (Folders op))) = true)
        by (apply folder_at_iff; now split).
      rewrite Hat. reflexivity.
    + now rewrite Hlook.
    + intros c' path' Hother. rewrite Hlook.
      unfold FindFolderByPath, First. rewrite E. cbn [fst].
      destruct (hd_error _); [reflexivity|].
      destruct (folder_at c' path' _) eqn:Hat; [|reflexivity].
      apply folder_at_iff in Hat. cbn in Hat. destruct Hat as [Hc Hp].
      destruct Hother as [Hother|Hother]; [now rewrite Hc in Hother | now rewrite Hp in Hother].
Qed.

Lemma FindOrCreateFolder_then_find_witness :
  FindFolderByPath category_P "2020-01-01/sub" op_top_folder
  = (Some (mkFolder 1 None 1 None 0 1 "2020-01-01/sub" "sub"), None) /\
  FindFolderByPath category_Q "2020-01-01/sub" op_top_folder = (None, None).
Proof.
  destruct (FindOrCreateFolder_then_find category_P None "2020-01-01/sub" op_empty
              op_top_folder _ eq_refl) as (_ & _ & Hother).
  split; [reflexivity|].
  rewrite (Hother category_Q "2020-01-01/sub"%string) by (left; discriminate).
  reflexivity.
Defined.

(** X7: in a keyed folder table, a find-or-create at the category and path
    of a stored folder whose parent key is not the key of the parent handed
    in returns the different-parent error and no record, and the operation
    is left exactly as it was: the stored folder keeps its parent. *)
Theorem FindOrCreateFolder_conflict_writes_nothing (c : Category) (f : option Folder)
    (path : string) (op : Operation) (row : Folder) :
  Err op = None -> NoDup (map Folder_key (Folders op)) ->
  In row (Folders op) ->
  Folder_CategoryID row = Category_ID c -> Folder_PublicPath row = path ->
  Folder_FolderID row <> parent_key f ->
  FindOrCreateFolder c f path op = ((None, Some different_parent), op).
Proof.
  intros E Hkeys Hin Hc Hp Hdiff.
  apply (FindOrCreateFolder_conflict c f path op row); [|exact Hdiff].
  unfold FindFolderByPath, First. rewrite E. fold (folder_at c path).
  destruct (hd_error _) as [found|] eqn:Hfind.
  - apply Where_first_Some in Hfind. destruct Hfind as [Hin' Hat].
    apply folder_at_iff in Hat. destruct Hat as [Hc' Hp'].
    f_equal. f_equal. apply (keyed_rows_equal Folder_key (Folders op)); trivial.
    unfold Folder_key. congruence.
  - pose proof (Where_first_None _ _ Hfind row Hin) as Hno.
    assert (Hat : folder_at c path row = true) by (apply folder_at_iff; now split).
    congruence.
Qed.

Lemma FindOrCreateFolder_conflict_writes_nothing_witness :
  FindOrCreateFolder category_P (Some folder_1) "2020-01-01/sub" op_top_folder
  = ((None, Some different_parent), op_top_folder).
Proof.
  apply (FindOrCreateFolder_conflict_writes_nothing category_P (Some folder_1)
           "2020-01-01/sub" op_top_folder
           (mkFolder 1 None 1 None 0 1 "2020-01-01/sub" "sub")).
  - reflexivity.
  - repeat constructor. cbn. tauto.
  - left. reflexivity.
  - reflexivity.
  - reflexivity.
  - discriminate.
Defined.

(** ** Real folders *)

(** X8: on an operation without error, a find-or-create of a real folder
    under a folder always returns a record and no error: the record carries
    the folder handed in, its id as folder key and the full path, and the
    table is as before or one row, the record's, longer. *)
Theorem FindOrCreateRealFolder_returns (p : Folder) (path : string) (op : Operation) :
  Err op = None ->
  exists rf op1,
    FindOrCreateRealFolder (Some p) path op = Return ((Some rf, None), op1) /\
    RealFolder_Folder rf = Some p /\ RealFolder_FolderID rf = Folder_ID p /\
    RealFolder_FullPath rf = path /\
    (RealFolders op1 = RealFolders op \/ RealFolders op1 = RealFolders op ++ [columns rf]) /\
    In (columns rf) (map columns (RealFolders op1)) /\ Err op1 = None.
Proof.
  intro E. unfold FindOrCreateRealFolder, FindRealFolderByPath, First. rewrite E.
  destruct (hd_error _) as [found|] eqn:Hfind.
  - apply Where_first_Some in Hfind. destruct Hfind as [Hin Hcond].
    apply andb_true_iff in Hcond. destruct Hcond as [Hkey Hpath].
    rewrite Hkey. cbn [negb]. apply Z.eqb_eq in Hkey. apply String.eqb_eq in Hpath.
    do 2 eexists. split; [reflexivity|]. cbn.
    repeat split; trivial; [now left|].
    apply in_map_iff. exists found. now split.
  - rewrite Save_insert by reflexivity. cbn [fst snd].
    do 2 eexists. split; [cbn [Err with_RealFolders]; rewrite E; reflexivity|]. cbn.
    repeat split; [now right | | exact E].
    rewrite map_app. apply in_or_app. right. now left.
Qed.

Lemma FindOrCreateRealFolder_returns_witness :
  exists rf op1,
    FindOrCreateRealFolder (Some folder_2) "/vol/P/2021-06-30" op_real_folder
    = Return ((Some rf, None), op1) /\ RealFolder_FolderID rf = 2.
Proof.
  destruct (FindOrCreateRealFolder_returns folder_2 "/vol/P/2021-06-30" op_real_folder eq_refl)
    as (rf & op1 & Hcall & _ & Hkey & _).
  exists rf, op1. split; [exact Hcall | exact Hkey].
Defined.

Lemma GetRealFolders_In (q : Folder) (op : Operation) (r : RealFolder) :
  Err op = None ->
  (In r (fst (GetRealFolders q op)) <->
   In r (RealFolders op) /\ RealFolder_FolderID r = Folder_ID q).
Proof.
  intro E. unfold GetRealFolders, AllObjects, Where. rewrite E. cbn [fst].
  now rewrite filter_In, Z.eqb_eq.
Qed.

(** X9: after a find-or-create returned a real folder under a folder, the
    listing of that folder's real folders holds the record's row; every row
    it lists has the folder's id as key; and no real folder that any
    folder's listing held before is lost. *)
Theorem FindOrCreateRealFolder_then_listed (p : Folder) (path : string)
    (op op1 : Operation) (rf : RealFolder) :
  FindOrCreateRealFolder (Some p) path op = Return ((Some rf, None), op1) ->
  snd (GetRealFolders p op1) = None /\
  In (columns rf) (map columns (fst (GetRealFolders p op1))) /\
  (forall r, In r (fst (GetRealFolders p op1)) -> RealFolder_FolderID r = Folder_ID p) /\
  (forall q r, In r (fst (GetRealFolders q op)) -> In r (fst (GetRealFolders q op1))).
Proof.
  intro Hcall.
  assert (E : Err op = None).
  { revert Hcall. unfold FindOrCreateRealFolder, FindRealFolderByPath, First.
    destruct (Err op); [discriminate | reflexivity]. }
  destruct (FindOrCreateRealFolder_returns p path op E)
    as (rf' & op1' & Hcall' & _ & Hkey & _ & Hrows & Hin & E1).
  rewrite Hcall in Hcall'. injection Hcall' as Hrf Hop. subst rf' op1'.
  split; [unfold GetRealFolders; now rewrite E1|]. split; [|split].
  - apply in_map_iff in Hin. destruct Hin as (row & Hcols & Hrow).
    apply in_map_iff. exists row. split; [exact Hcols|].
    apply GetRealFolders_In; [exact E1|]. split; [exact Hrow|].
    rewrite <- Hkey.
    change (RealFolder_FolderID row) with (RealFolder_FolderID (columns row)).
    now rewrite Hcols.
  - intros r Hr. now apply (GetRealFolders_In p op1 r E1) in Hr.
  - intros q r Hr. apply (GetRealFolders_In q op r E) in Hr.
    apply (GetRealFolders_In q op1 r E1). destruct Hr as [Hr Hq]. split; [|exact Hq].
    destruct Hrows as [->| ->]; [exact Hr | apply in_or_app; now left].
Qed.

Lemma FindOrCreateRealFolder_then_listed_witness :
  In (mkRealFolder 1 None 1 "/vol/P/2020-01-01/sub")
     (map columns (fst (GetRealFolders folder_1 op_real_folder))).
Proof.
  destruct (FindOrCreateRealFolder_then_listed folder_1 "/vol/P/2020-01-01/sub" op_empty
              op_real_folder (mkRealFolder 1 (Some folder_1) 1 "/vol/P/2020-01-01/sub")
              eq_refl) as (_ & Hlisted & _ & _).
  exact Hlisted.
Defined.

(** ** Categories of fetched records *)

Lemma Category_less_asym (a b : Category) :
  String.ltb (strings_ToLower (Category_Name a)) (strings_ToLower (Category_Name b)) = true ->
  String.ltb (strings_ToLower (Category_Name b)) (strings_ToLower (Category_Name a)) = false.
Proof. apply string_ltb_asym. Qed.

Lemma AllCategories_rows (op : Operation) :
  Err op = None ->
  Permutation (fst (AllCategories op)) (Categories op) /\
  StronglySorted Category_before (fst (AllCategories op)).
Proof.
  intro E. unfold AllCategories, AllObjects, Order. rewrite E. cbn [fst]. split.
  - apply insertionSort_perm.
  - apply (insertionSort_sorted
             (fun a b => String.ltb (strings_ToLower (Category_Name a))
                                    (strings_ToLower (Category_Name b)))).
    + intros a b. apply string_ltb_asym.
    + intros a b c. apply string_ltb_negtrans.
Qed.

(** X11: the category listing returns, on an operation without error, all
    the categories, each row once, in ascending order of their names with
    letter case set aside; on an operation that carries an error it returns
    no category and that error. *)
Theorem AllCategories_sorted (op : Operation) :
  match Err op with
  | Some e => AllCategories op = ([], Some e)
  | None =>
      snd (AllCategories op) = None /\
      Permutation (fst (AllCategories op)) (Categories op) /\
      StronglySorted Category_before (fst (AllCategories op))
  end.
Proof.
  destruct (Err op) as [e|] eqn:E.
  - unfold AllCategories, AllObjects. now rewrite E.
  - split; [unfold AllCategories; now rewrite E|]. now apply AllCategories_rows.
Qed.

(** The map built from a list of categories with distinct ids answers an id
    with the category of that id in the list, and with nothing otherwise. *)
Lemma categoryLookup_fold (l : list Category) :
  forall base id c,
    NoDup (map Category_ID l) ->
    (fold_left (fun lookup x => fun k => if k =? Category_ID x then Some x else lookup k)
               l base id = Some c <->
     (In c l /\ Category_ID c = id) \/
     ((forall x, In x l -> Category_ID x <> id) /\ base id = Some c)).
Proof.
  induction l as [|x l IH]; intros base id c Hnd; cbn [fold_left map In].
  - split; [intro; right; split; [intros ? []|assumption] | intros [[[] _]|[_ H]]; exact H].
  - apply NoDup_cons_iff in Hnd. destruct Hnd as [Hx Hnd].
    rewrite (IH _ id c Hnd). cbn beta.
    destruct (id =? Category_ID x) eqn:Hid.
    + apply Z.eqb_eq in Hid. split.
      * intros [[Hin Hc]|[Hfresh Hsome]]; [left; tauto|].
        injection Hsome as <-. left. split; [now left | now symmetry].
      * intros [[[<-|Hin] Hc]|[Hfresh _]].
        -- right. split; [|reflexivity]. intros y Hy Hyid. apply Hx.
           apply in_map_iff. exists y. split; [congruence | exact Hy].
        -- left. tauto.
        -- exfalso. apply (Hfresh x); [now left | now symmetry].
    + apply Z.eqb_neq in Hid. split.
      * intros [[Hin Hc]|[Hfresh Hsome]]; [left; tauto|].
        right. split; [|exact Hsome]. intros y [<-|Hy]; [congruence | now apply Hfresh].
      * intros [[[<-|Hin] Hc]|[Hfresh Hsome]]; [congruence | left; tauto|].
        right. split; [|exact Hsome]. intros y Hy. apply Hfresh. now right.
Qed.

(** X10: when category ids are distinct, on an operation without error,
    [PopulateCategories] gives every file and every folder the category
    whose id is the record's category id, or none when no category has that
    id, and changes nothing else: the records stay in number and in order. *)
Theorem PopulateCategories_fills (files : list File) (folders : list Folder)
    (op : Operation) :
  Err op = None -> NoDup (map Category_ID (Categories op)) ->
  exists lookup : Z -> option Category,
    (forall id c, lookup id = Some c <-> In c (Categories op) /\ Category_ID c = id) /\
    PopulateCategories files folders op
    = ((map (fun f => File_with_Category (lookup (File_CategoryID f)) f) files,
        map (fun f => Folder_with_Category (lookup (Folder_CategoryID f)) f) folders),
       None).
Proof.
  intros E Hnd. exists (categoryLookup (fst (AllCategories op))). split.
  - intros id c. destruct (AllCategories_rows op E) as [P _].
    unfold categoryLookup. rewrite categoryLookup_fold.
    + split.
      * intros [[Hin Hc]|[_ Habs]]; [|discriminate].
        split; [eapply Permutation_in; eassumption | exact Hc].
      * intros [Hin Hc]. left. split; [|exact Hc].
        eapply Permutation_in; [apply Permutation_sym; exact P | exact Hin].
    + eapply Permutation_NoDup; [|exact Hnd].
      apply Permutation_map, Permutation_sym, P.
  - unfold PopulateCategories.
    destruct (AllCategories op) as [categoryList err] eqn:HA.
    assert (err = None) as -> by (unfold AllCategories in HA; congruence).
    reflexivity.
Qed.

Lemma PopulateCategories_fills_witness :
  fst (PopulateCategories [file_b; file_a] [] op_files)
  = ([File_with_Category (Some category_Q) file_b; File_with_Category (Some category_P) file_a],
     []).
Proof.
  assert (Hnd : NoDup (map Category_ID (Categories op_files)))
    by (apply (distinct_NoDup [1; 2]); reflexivity).
  destruct (PopulateCategories_fills [file_b; file_a] [] op_files eq_refl Hnd)
    as (lookup & Hlookup & Hfilled).
  rewrite Hfilled. cbn [fst map].
  assert (HQ : lookup (File_CategoryID file_b) = Some category_Q)
    by (apply Hlookup; split; [right; now left | reflexivity]).
  assert (HP : lookup (File_CategoryID file_a) = Some category_P)
    by (apply Hlookup; split; [now left | reflexivity]).
  now rewrite HQ, HP.
Defined.

(** ** Lookups of files *)














Lemma appendFiles_failed (files : list File) (ids : list Z) (op : Operation) (e : error) :
  Err op = Some e -> appendFiles files ids op = files.
Proof. intro E. unfold appendFiles, AllObjects. rewrite E. apply app_nil_r. Qed.

(** X15: on an operation that carries an error, the batched lookup returns
    no record and that error, for every list of ids. *)
Theorem GetFilesByIDs_failed_operation (ids : list Z) (op : Operation) (e : error) :
  Err op = Some e -> GetFilesByIDs ids op = ([], Some e).
Proof.
  intro E. unfold GetFilesByIDs. rewrite GetFilesByIDs_fetch_batches.
  assert (Hfold : forall bs acc,
            fold_left (fun fs b => appendFiles fs b op) bs acc = acc).
  { induction bs as [|b bs IH]; intro acc; cbn [fold_left]; [reflexivity|].
    now rewrite (appendFiles_failed _ _ _ _ E). }
  rewrite Hfold. cbn. unfold PopulateCategories, AllCategories. now rewrite E.
Qed.

Lemma GetFilesByIDs_failed_operation_witness :
  GetFilesByIDs [1; 2]
    (mkOperation (Some (Errorf "disk I/O error")) [file_a; file_b] [] [] [] [])
  = ([], Some (Errorf "disk I/O error")).
Proof.
  apply GetFilesByIDs_failed_operation. reflexivity.
Defined.

(** ** More on the archive-job queue *)















(** ** Transactions *)



(** ** Zip jobs *)








(** X23: [QueueZipJob] with an empty file list or an empty address list
    returns an error and writes nothing; with two non-empty lists, on an
    operation without error, it returns no error and appends exactly one
    job, with the next key of the table, created at the current time, with
    the address strings joined by commas and the full paths joined by the
    record separator, each in order.  That job is the one the next call to
    [ProcessZipJob] claims when the table was empty. *)
Theorem QueueZipJob_appends_one_job {Addr : Type} `{Stringer Addr}
    (now : Time) (addrs : list Addr) (files : list File) (op : ZipOperation) :
  ZipErr op = None ->
  QueueZipJob now addrs [] op = (Some no_zip_files, op) /\
  (files <> [] -> QueueZipJob now (@nil Addr) files op = (Some no_zip_addresses, op)) /\
  (addrs <> [] -> files <> [] ->
   QueueZipJob now addrs files op
   = (None,
      mkZipOperation None
        (ZipJobs op ++
         [mkZipJob (next_pk (ZipJobs op)) now
            (strings_Join (map String_ addrs) ",")
            (strings_Join (map File_FullPath files) RS)])) /\
   (ZipJobs op = [] ->
    forall cb,
      snd (fst (ProcessZipJob cb (snd (QueueZipJob now addrs files op))))
      = [mkZipJob 1 now (strings_Join (map String_ addrs) ",")
           (strings_Join (map File_FullPath files) RS)])).
Proof.
  intro E. split; [reflexivity|]. split.
  - intro Hf. destruct files; [congruence | reflexivity].
  - intros Ha Hf.
    assert (Hq : QueueZipJob now addrs files op
                 = (None,
                    mkZipOperation None
                      (ZipJobs op ++
                       [mkZipJob (next_pk (ZipJobs op)) now
                          (strings_Join (map String_ addrs) ",")
                          (strings_Join (map File_FullPath files) RS)]))).
    { unfold QueueZipJob.
      rewrite (proj2 (length_zero_iff_nil_b files) Hf),
              (proj2 (length_zero_iff_nil_b addrs) Ha), E.
      now rewrite Save_insert by reflexivity. }
    split; [exact Hq|].
    intros Hempty cb. rewrite Hq, Hempty. cbn [snd app].
    unfold ProcessZipJob, First. cbn. now destruct (cb _).
Qed.

Lemma QueueZipJob_appends_one_job_witness :
  QueueZipJob 1000 ["a@example.org"%string] [file_a] (mkZipOperation None [])
  = (None,
     mkZipOperation None [mkZipJob 1 1000 "a@example.org" "/vol/P/2020-01-01/a/x.tif"]).
Proof.
  destruct (QueueZipJob_appends_one_job 1000 ["a@example.org"%string] [file_a]
              (mkZipOperation None []) eq_refl) as (_ & _ & Happend).
  destruct Happend as [Hq _]; [discriminate | discriminate |].
  exact Hq.
Defined.

(** ** Breadcrumbs *)

Lemma items_from (l : list breadCrumb) :
  forall (c : breadCrumb) (start : nat) (m : Z),
    m = Z.of_nat (start + List.length l) ->
    map (fun ic => breadCrumb_li (snd ic) (Z.of_nat (fst ic) =? m))
        (combine (seq start (List.length (l ++ [c]))) (l ++ [c]))
    = map (fun x => breadCrumb_li x false) l ++ [breadCrumb_li c true].
Proof.
  induction l as [|x l IH]; intros c start m Hm.
  - cbn. replace (Z.of_nat start =? m) with true; [reflexivity|].
    symmetry. apply Z.eqb_eq. cbn in Hm. lia.
  - cbn [app List.length seq combine map fst snd].
    replace (Z.of_nat start =? m) with false
      by (symmetry; apply Z.eqb_neq; cbn in Hm; lia).
    f_equal. apply IH. cbn in Hm. lia.
Qed.

(** X24: the navigation renders the crumbs in order between the opening and
    the closing wrapper; exactly the last crumb is rendered as the current
    page, every crumb before it as a plain link; without crumbs the
    wrappers enclose nothing. *)
Theorem breadCrumbs_nav_marks_last (l : list breadCrumb) (c : breadCrumb) :
  breadCrumbs_items (mkBreadCrumbs (l ++ [c]))
  = map (fun x => breadCrumb_li x false) l ++ [breadCrumb_li c true] /\
  breadCrumbs_nav (mkBreadCrumbs (l ++ [c]))
  = String.append wrapperOpen
      (String.append
         (strings_Join (map (fun x => breadCrumb_li x false) l ++ [breadCrumb_li c true])
            EmptyString)
         wrapperClose) /\
  breadCrumbs_nav (mkBreadCrumbs []) = String.append wrapperOpen wrapperClose.
Proof.
  assert (Hitems : breadCrumbs_items (mkBreadCrumbs (l ++ [c]))
                   = map (fun x => breadCrumb_li x false) l ++ [breadCrumb_li c true]).
  { unfold breadCrumbs_items. cbn [breadCrumbs_list]. apply items_from.
    rewrite length_app. cbn [List.length]. lia. }
  split; [exact Hitems|]. split; [|reflexivity].
  unfold breadCrumbs_nav. now rewrite Hitems.
Qed.

Lemma strings_Split_length (s : string) (sep : ascii) :
  List.length (strings_Split s sep) = S (strings_Count s sep).
Proof.
  induction s as [|ch s IH]; cbn [strings_Split strings_Count]; [reflexivity|].
  destruct (Ascii.eqb ch sep); cbn [List.length]; [now rewrite IH|].
  destruct (strings_Split s sep) as [|piece pieces]; [discriminate | exact IH].
Qed.

(** Joining the pieces of a split with the separator gives the string back. *)
Lemma strings_Join_Split (s : string) (sep : ascii) :
  strings_Join (strings_Split s sep) (String sep EmptyString) = s.
Proof.
  induction s as [|ch s IH]; cbn [strings_Split]; [reflexivity|].
  pose proof (strings_Split_length s sep) as Hlen.
  destruct (Ascii.eqb ch sep) eqn:Hch.
  - apply Ascii.eqb_eq in Hch. subst ch.
    destruct (strings_Split s sep) as [|piece pieces]; [discriminate|].
    cbn [strings_Join String.append]. cbn. now rewrite <- IH.
  - destruct (strings_Split s sep) as [|piece pieces]; [discriminate|].
    destruct pieces as [|piece2 pieces]; cbn in IH |- *; now rewrite <- IH.
Qed.

Lemma crumbs_fold_labels (browseFolderPath : ProjectFolder -> string)
    (filepath_Join : string -> string -> string) (parts : list string) :
  forall (dummy : ProjectFolder) (crumbs : breadCrumbs),
    map breadCrumb_label
      (breadCrumbs_list
         (snd (fold_left
                 (fun (state : ProjectFolder * breadCrumbs) part =>
                    let (dummy, crumbs) := state in
                    let dummy' :=
                      mkProjectFolder (ProjectFolder_Project dummy)
                        (filepath_Join (ProjectFolder_Path dummy) part) in
                    (dummy', breadCrumbs_add part (browseFolderPath dummy') crumbs))
                 parts (dummy, crumbs))))
    = map breadCrumb_label (breadCrumbs_list crumbs) ++ parts.
Proof.
  induction parts as [|part parts IH]; intros dummy crumbs; cbn [fold_left].
  - cbn. now rewrite app_nil_r.
  - rewrite IH. cbn [breadCrumbs_add breadCrumbs_list].
    rewrite map_app. cbn [map breadCrumb_label]. now rewrite <- app_assoc.
Qed.

(** X25: without a project the breadcrumbs are the empty string.  With a
    project, the first crumb is the project's, labelled with its name and
    linked to its page; the crumbs that follow are labelled with the pieces
    of the folder's path, in order, so that joining these labels with the
    separator gives the path back.  There is one crumb without a folder, and
    two more than the path has separators with one. *)
Theorem breadcrumbs_labels (browseProjectPath : Project -> string)
    (browseFolderPath : ProjectFolder -> string)
    (filepath_Join : string -> string -> string) (p : Project) (f : option ProjectFolder) :
  breadcrumbs browseProjectPath browseFolderPath filepath_Join None f = EmptyString /\
  map breadCrumb_label
    (breadCrumbs_list
       (breadcrumbs_crumbs browseProjectPath browseFolderPath filepath_Join p f))
  = Project_Name p ::
    match f with
    | Some f => strings_Split (ProjectFolder_Path f) PathSeparator
    | None => []
    end /\
  hd_error (breadCrumbs_list
              (breadcrumbs_crumbs browseProjectPath browseFolderPath filepath_Join p f))
  = Some (mkBreadCrumb (Project_Name p) (browseProjectPath p)) /\
  List.length (breadCrumbs_list
                 (breadcrumbs_crumbs browseProjectPath browseFolderPath filepath_Join p f))
  = match f with
    | Some f => (2 + strings_Count (ProjectFolder_Path f) PathSeparator)%nat
    | None => 1%nat
    end /\
  match f with
  | Some f =>
      strings_Join
        (tl (map breadCrumb_label
               (breadCrumbs_list
                  (breadcrumbs_crumbs browseProjectPath browseFolderPath filepath_Join p
                     (Some f)))))
        (String PathSeparator EmptyString)
      = ProjectFolder_Path f
  | None => True
  end.
Proof.
  assert (Hlabels :
            forall f',
              map breadCrumb_label
                (breadCrumbs_list
                   (breadcrumbs_crumbs browseProjectPath browseFolderPath filepath_Join p f'))
              = Project_Name p ::
                match f' with
                | Some f => strings_Split (ProjectFolder_Path f) PathSeparator
                | None => []
                end).
  { intro f'. unfold breadcrumbs_crumbs. rewrite crumbs_fold_labels. reflexivity. }
  split; [reflexivity|]. split; [apply Hlabels|]. split; [|split].
  - unfold breadcrumbs_crumbs.
    generalize (match f with
                | Some f0 => strings_Split (ProjectFolder_Path f0) PathSeparator
                | None => []
                end).
    intro parts.
    assert (Hhd : forall (parts : list string) dummy crumbs x,
              hd_error (breadCrumbs_list crumbs) = Some x ->
              hd_error
                (breadCrumbs_list
                   (snd (fold_left
                           (fun (state : ProjectFolder * breadCrumbs) part =>
                              let (dummy, crumbs) := state in
                              let dummy' :=
                                mkProjectFolder (ProjectFolder_Project dummy)
                                  (filepath_Join (ProjectFolder_Path dummy) part) in
                              (dummy', breadCrumbs_add part (browseFolderPath dummy') crumbs))
                           parts (dummy, crumbs)))) = Some x).
    { clear. induction parts as [|part parts IH]; intros dummy crumbs x Hx;
        cbn [fold_left]; [exact Hx|].
      apply IH. cbn [breadCrumbs_add breadCrumbs_list].
      destruct (breadCrumbs_list crumbs); [discriminate | exact Hx]. }
    apply Hhd. reflexivity.
  - rewrite <- (length_map breadCrumb_label), Hlabels. cbn [List.length].
    destruct f as [f|]; [|reflexivity]. now rewrite strings_Split_length.
  - destruct f as [f|]; [|exact I].
    rewrite Hlabels. cbn [tl]. apply strings_Join_Split.
Qed.

(** ** The stored file list *)

Lemma strings_Split_piece (e : string) (sep : ascii) :
  strings_Count e sep = 0%nat -> strings_Split e sep = [e].
Proof.
  induction e as [|ch e IH]; cbn [strings_Count strings_Split]; [reflexivity|].
  destruct (Ascii.eqb ch sep); [discriminate|]. intro Hfree. now rewrite IH.
Qed.

Lemma strings_Split_app (e rest : string) (sep : ascii) :
  strings_Count e sep = 0%nat ->
  strings_Split (String.append e (String sep rest)) sep = e :: strings_Split rest sep.
Proof.
  induction e as [|ch e IH]; cbn [strings_Count String.append].
  - intros _. cbn [strings_Split]. now rewrite Ascii.eqb_refl.
  - destruct (Ascii.eqb ch sep) eqn:Hch; [discriminate|]. intro Hfree.
    cbn [strings_Split]. now rewrite Hch, IH.
Qed.

Lemma strings_Split_Join (l : list string) (sep : ascii) :
  l <> [] -> Forall (fun e => strings_Count e sep = 0%nat) l ->
  strings_Split (strings_Join l (String sep EmptyString)) sep = l.
Proof.
  intros Hne Hfree. induction Hfree as [|e l He Hl IH]; [congruence|].
  destruct l as [|e2 l].
  - cbn [strings_Join]. now apply strings_Split_piece.
  - cbn [strings_Join]. cbn [String.append].
    rewrite strings_Split_app by exact He.
    f_equal. apply IH. discriminate.
Qed.

(** X26: the file list a job is stored with can be read back.  When no full
    path holds the record separator, splitting the [files] field of the job
    an enqueue appends, at the record separator, gives the full paths of the
    files handed in, in the same order. *)
Theorem QueueArchiveJob_files_round_trip {Addr : Type} `{Stringer Addr}
    (now : Time) (addrs : list Addr) (files : list File) (op : Operation) :
  Err op = None -> addrs <> [] -> files <> [] ->
  Forall (fun f => strings_Count (File_FullPath f) (ascii_of_nat 30) = 0%nat) files ->
  exists j,
    ArchiveJobs (snd (QueueArchiveJob now addrs files op)) = ArchiveJobs op ++ [j] /\
    strings_Split (ArchiveJob_Files j) (ascii_of_nat 30) = map File_FullPath files.
Proof.
  intros E Ha Hf Hfree.
  exists (mkArchiveJob (next_pk (ArchiveJobs op)) now zeroTime
            (strings_Join (map String_ addrs) ",")
            (strings_Join (map File_FullPath files) RS) false).
  split.
  - unfold QueueArchiveJob.
    rewrite (proj2 (length_zero_iff_nil_b files) Hf),
            (proj2 (length_zero_iff_nil_b addrs) Ha), E.
    now rewrite Save_insert by reflexivity.
  - cbn [ArchiveJob_Files]. unfold RS. apply strings_Split_Join.
    + destruct files; [congruence | discriminate].
    + apply Forall_map. exact Hfree.
Qed.

Lemma QueueArchiveJob_files_round_trip_witness :
  exists j,
    ArchiveJobs (snd (QueueArchiveJob 1000 ["a@example.org"%string] [file_a; file_c] op_empty))
    = [j] /\
    strings_Split (ArchiveJob_Files j) (ascii_of_nat 30)
    = ["/vol/P/2020-01-01/a/x.tif"%string; "/vol/P/2020-01-01/top.tif"%string].
Proof.
  assert (Ha : ["a@example.org"%string] <> []) by discriminate.
  assert (Hf : [file_a; file_c] <> []) by discriminate.
  assert (Hfree : Forall (fun f => strings_Count (File_FullPath f) (ascii_of_nat 30) = 0%nat)
                    [file_a; file_c]) by (repeat constructor).
  destruct (QueueArchiveJob_files_round_trip 1000 ["a@example.org"%string] [file_a; file_c]
              op_empty eq_refl Ha Hf Hfree) as (j & Hrows & Hsplit).
  exists j. split; [exact Hrows | exact Hsplit].
Defined.

(** ** The number of queries *)

Lemma batches_count (fuel : nat) :
  forall ids, (List.length ids < fuel)%nat ->
    (List.length ids <= List.length (batches fuel ids) * maxBatch
     < List.length ids + maxBatch)%nat.
Proof.
  pose proof maxBatch_positive as Hpos.
  induction fuel as [|fuel IH]; intros ids Hlen; [lia|].
  rewrite batches_step.
  destruct (Nat.ltb_spec maxBatch (List.length ids)) as [Hbig|Hsmall].
  - cbn [List.length].
    assert (Hrest : (List.length (skipn maxBatch ids) < fuel)%nat)
      by (rewrite length_skipn; lia).
    specialize (IH _ Hrest). rewrite length_skipn in IH. lia.
  - destruct (Nat.ltb_spec 0 (List.length ids)); cbn [List.length]; lia.
Qed.

Lemma batches_full (fuel : nat) :
  forall ids front last,
    batches fuel ids = front ++ [last] ->
    Forall (fun b => List.length b = maxBatch) front.
Proof.
  induction fuel as [|fuel IH]; intros ids front last Hb.
  - cbn in Hb. destruct front; discriminate.
  - rewrite batches_step in Hb.
    destruct (Nat.ltb_spec maxBatch (List.length ids)) as [Hbig|Hsmall].
    + destruct front as [|b front].
      * constructor.
      * cbn [app] in Hb.
        pose proof (f_equal (@hd (list Z) []) Hb) as Hfirst.
        pose proof (f_equal (@tl (list Z)) Hb) as Hrest.
        cbn [hd tl] in Hfirst, Hrest. subst b. constructor.
        -- rewrite length_firstn. lia.
        -- exact (IH _ _ _ Hrest).
    + destruct (0 <? List.length ids)%nat.
      * destruct front as [|b [|b2 front]]; [constructor | discriminate | discriminate].
      * destruct front; discriminate.
Qed.

(** X27: the ids are fetched with as few queries as batches of 1000 allow:
    the number of batches is the number of ids divided by 1000, rounded up,
    no query is made for an empty list, and every batch but the last holds
    exactly 1000 ids. *)
Theorem GetFilesByIDs_number_of_batches (ids : list Z) :
  (List.length ids <= List.length (GetFilesByIDs_batches ids) * 1000
   < List.length ids + 1000)%nat /\
  GetFilesByIDs_batches [] = [] /\
  (forall front last, GetFilesByIDs_batches ids = front ++ [last] ->
                      Forall (fun b => List.length b = 1000%nat) front).
Proof.
  split; [apply (batches_count (S (List.length ids)) ids); lia|].
  split; [reflexivity|].
  intros front last. apply batches_full.
Qed.

Lemma GetFilesByIDs_number_of_batches_witness :
  Forall (fun b => List.length b = 1000%nat) [firstn 1000 ids_repeated].
Proof.
  destruct (GetFilesByIDs_number_of_batches ids_repeated) as (_ & _ & Hfull).
  apply (Hfull [firstn 1000 ids_repeated] [2; 1]).
  vm_compute. reflexivity.
Defined.
